(** * iprange: inclusive IPv4 / IPv6 address ranges

    A shallow embedding of [pkg/iprange/range.go] together with the parts of
    the Go standard library it calls ([bytes.Compare], [net.IP.To4],
    [net.IP.To16], [net.IP.String], [big.Int.SetBytes]), and the properties
    of the constructor [New] and of the four methods of a [Range]. *)

From Stdlib Require Import String Ascii ZArith NArith List Bool Lia.
From Stdlib.Strings Require Import Byte.
From Stdlib Require DecimalString HexadecimalString.
Import ListNotations.
Open Scope Z_scope.

(** ** Bytes and slices *)

(** A Go [byte] read as an integer in [0, 255]. *)
Definition byteZ (b : byte) : Z := Z.of_N (Byte.to_N b).

(** The byte with the given value (0 when the value does not fit). *)
Definition B (n : N) : byte :=
  match Byte.of_N n with
  | Some b => b
  | None => x00
  end.

Module bytes.

(** [bytes.Compare]: lexicographic comparison, a proper prefix is smaller;
    the result is -1, 0 or +1. *)
Fixpoint Compare (a b : list byte) : Z :=
  match a, b with
  | [], [] => 0
  | [], _ :: _ => -1
  | _ :: _, [] => 1
  | x :: a', y :: b' =>
      match (Byte.to_N x ?= Byte.to_N y)%N with
      | Lt => -1
      | Gt => 1
      | Eq => Compare a' b'
      end
  end.

End bytes.

Module net.

(** [net.IP] is a byte slice; the nil slice is the empty list. *)
Definition IP := list byte.

Definition IPv4len : nat := 4.
Definition IPv6len : nat := 16.

Definition isZeros (p : IP) : bool :=
  forallb (fun b => Byte.eqb b x00) p.

(** [ip[i]] where the index is known to be in range. *)
Definition at_ (ip : IP) (i : nat) : byte := nth i ip x00.

Definition v4InV6Prefix : IP :=
  [x00; x00; x00; x00; x00; x00; x00; x00; x00; x00; xff; xff].

(** [net.IPv4(a, b, c, d)]: the 16-byte IPv4-mapped form, the prefix
    followed by the four bytes. *)
Definition IPv4 (a b c d : byte) : IP := v4InV6Prefix ++ [a; b; c; d].

(** [ip.To4()]: [None] is Go's nil result. *)
Definition To4 (ip : IP) : option IP :=
  if Nat.eqb (length ip) IPv4len then Some ip
  else if Nat.eqb (length ip) IPv6len
          && isZeros (firstn 10 ip)
          && Byte.eqb (at_ ip 10) xff
          && Byte.eqb (at_ ip 11) xff
       then Some (skipn 12 ip)
       else None.

(** [ip.To16()]: [None] is Go's nil result. *)
Definition To16 (ip : IP) : option IP :=
  if Nat.eqb (length ip) IPv4len
  then Some (IPv4 (at_ ip 0) (at_ ip 1) (at_ ip 2) (at_ ip 3))
  else if Nat.eqb (length ip) IPv6len then Some ip
       else None.

End net.

Module big.

(** [big.Int.SetBytes]: the slice read as a big-endian unsigned integer. *)
Definition SetBytes (buf : list byte) : Z :=
  fold_left (fun acc b => acc * 256 + byteZ b) buf 0.

End big.

(** ** The package *)

(** [Family] is the address family of a range. *)
Inductive Family : Set :=
| V4Family
| V6Family.

Record v4Range : Set := mk_v4Range { v4Start : net.IP; v4End : net.IP }.
Record v6Range : Set := mk_v6Range { v6Start : net.IP; v6End : net.IP }.

(** The interface [Range] has exactly two implementations. *)
Inductive Range : Set :=
| R4 (r : v4Range)
| R6 (r : v6Range).

(** Modelled from the spec: [isV4IP] is a helper of the package that range.go
    does not define.  Section 4.1, step 1: a valid IPv4 address is one that is
    4-byte representable. *)
Definition isV4IP (ip : net.IP) : bool :=
  match net.To4 ip with
  | Some _ => true
  | None => false
  end.

(** Modelled from the spec: [isV6IP] is a helper of the package that range.go
    does not define.  Section 4.1, step 2: 16-byte representable and not also
    representable as IPv4. *)
Definition isV6IP (ip : net.IP) : bool :=
  negb (isV4IP ip) &&
  match net.To16 ip with
  | Some _ => true
  | None => false
  end.

(** Modelled from the spec: [isV4RangeValid] is called by [New] and defined
    outside range.go.  Section 4.1, step 1: both addresses are valid IPv4
    addresses and start <= end under byte-wise comparison of their 4-byte
    form. *)
Definition isV4RangeValid (start end_ : net.IP) : bool :=
  match net.To4 start, net.To4 end_ with
  | Some s4, Some e4 => bytes.Compare s4 e4 <=? 0
  | _, _ => false
  end.

(** Modelled from the spec: [isV6RangeValid] is called by [New] and defined
    outside range.go.  Section 4.1, step 2: both addresses are valid IPv6
    addresses and start <= end under byte-wise comparison of their 16-byte
    form. *)
Definition isV6RangeValid (start end_ : net.IP) : bool :=
  isV6IP start && isV6IP end_ &&
  match net.To16 start, net.To16 end_ with
  | Some s16, Some e16 => bytes.Compare s16 e16 <=? 0
  | _, _ => false
  end.

(** [New]: [None] is the nil interface value. *)
Definition New (start end_ : net.IP) : option Range :=
  if isV4RangeValid start end_ then Some (R4 (mk_v4Range start end_))
  else if isV6RangeValid start end_ then Some (R6 (mk_v6Range start end_))
       else None.

(** *** Signed 64-bit arithmetic *)

(** Wrap-around of a Go [int64]. *)
Definition int64 (z : Z) : Z := (z + 2 ^ 63) mod 2 ^ 64 - 2 ^ 63.

Definition shl64 (x n : Z) : Z := int64 (Z.shiftl x n).
Definition add64 (x y : Z) : Z := int64 (x + y).
Definition sub64 (x y : Z) : Z := int64 (x - y).

(** [v4ToInt]: [None] is the run-time panic of indexing a nil slice. *)
Definition v4ToInt (ip : net.IP) : option Z :=
  match net.To4 ip with
  | None => None
  | Some ip =>
      match nth_error ip 0, nth_error ip 1, nth_error ip 2, nth_error ip 3 with
      | Some b0, Some b1, Some b2, Some b3 =>
          Some (Z.lor (Z.lor (Z.lor (shl64 (byteZ b0) 24)
                                    (shl64 (byteZ b1) 16))
                             (shl64 (byteZ b2) 8))
                      (byteZ b3))
      | _, _, _, _ => None
      end
  end.

(** *** Methods of [v4Range] *)

Definition v4Range_Family (r : v4Range) : Family := V4Family.

Definition v4Range_Contains (r : v4Range) (ip : net.IP) : bool :=
  (bytes.Compare ip (v4Start r) >=? 0) && (bytes.Compare ip (v4End r) <=? 0).

(** [big.NewInt] of an [int64] is that integer; [None] is a panic in
    [v4ToInt]. *)
Definition v4Range_Size (r : v4Range) : option Z :=
  match v4ToInt (v4End r), v4ToInt (v4Start r) with
  | Some e, Some s => Some (add64 (sub64 e s) 1)
  | _, _ => None
  end.

(** *** Methods of [v6Range] *)

Definition v6Range_Family (r : v6Range) : Family := V6Family.

Definition v6Range_Contains (r : v6Range) (ip : net.IP) : bool :=
  (bytes.Compare ip (v6Start r) >=? 0) && (bytes.Compare ip (v6End r) <=? 0).

Definition v6Range_Size (r : v6Range) : Z :=
  let size := 0 in
  let size := size + big.SetBytes (v6End r) in
  let size := size - big.SetBytes (v6Start r) in
  let size := size + 1 in
  size.

(** *** Calls through the interface *)

Definition Range_Family (r : Range) : Family :=
  match r with
  | R4 r => v4Range_Family r
  | R6 r => v6Range_Family r
  end.

Definition Range_Contains (r : Range) (ip : net.IP) : bool :=
  match r with
  | R4 r => v4Range_Contains r ip
  | R6 r => v6Range_Contains r ip
  end.

Definition Range_Size (r : Range) : option Z :=
  match r with
  | R4 r => v4Range_Size r
  | R6 r => Some (v6Range_Size r)
  end.

(** The two boundaries as they are stored. *)
Definition Range_Start (r : Range) : net.IP :=
  match r with
  | R4 r => v4Start r
  | R6 r => v6Start r
  end.

Definition Range_End (r : Range) : net.IP :=
  match r with
  | R4 r => v4End r
  | R6 r => v6End r
  end.

(** ** Notions of the specification *)

(** The family of an address: IPv4 when it is 4-byte representable, IPv6 when
    it is only 16-byte representable, none when it is no IP address. *)
Definition familyOf (ip : net.IP) : option Family :=
  match net.To4 ip, net.To16 ip with
  | Some _, _ => Some V4Family
  | None, Some _ => Some V6Family
  | None, None => None
  end.

(** The fixed-width byte form of an address in its family: 4 bytes for IPv4,
    16 bytes for IPv6. *)
Definition fixedWidth (ip : net.IP) : list byte :=
  match net.To4 ip, net.To16 ip with
  | Some ip4, _ => ip4
  | None, Some ip16 => ip16
  | None, None => ip
  end.

(** Byte-wise lexicographic order, most significant byte first, on sequences
    of one width. *)
Inductive lex_lt : list byte -> list byte -> Prop :=
| lex_lt_here x y a b :
    (Byte.to_N x < Byte.to_N y)%N -> length a = length b ->
    lex_lt (x :: a) (y :: b)
| lex_lt_later x a b :
    lex_lt a b -> lex_lt (x :: a) (x :: b).

Definition lex_le (a b : list byte) : Prop := a = b \/ lex_lt a b.

(** Big-endian interpretation of a byte sequence as an unsigned integer. *)
Fixpoint be_uint (l : list byte) : Z :=
  match l with
  | [] => 0
  | b :: l' => byteZ b * 256 ^ Z.of_nat (length l') + be_uint l'
  end.

(** The invariant of a range: both boundaries are of the family of the range
    and start <= end in the fixed-width form. *)
Definition ValidRange (r : Range) : Prop :=
  familyOf (Range_Start r) = Some (Range_Family r) /\
  familyOf (Range_End r) = Some (Range_Family r) /\
  lex_le (fixedWidth (Range_Start r)) (fixedWidth (Range_End r)).

(** The ways a pair of addresses fails to be a range. *)
Inductive InvalidRange (start end_ : net.IP) : Prop :=
| invalid_start : familyOf start = None -> InvalidRange start end_
| invalid_end : familyOf end_ = None -> InvalidRange start end_
| family_mismatch : familyOf start <> familyOf end_ -> InvalidRange start end_
| start_after_end :
    lex_lt (fixedWidth end_) (fixedWidth start) -> InvalidRange start end_.

(** ** Text form of an address *)

Module netip.

Definition digits : string := "0123456789abcdef".

(** [digits[n]] for [n < 16]. *)
Definition digit (n : N) : string :=
  match String.get (N.to_nat n) digits with
  | Some c => String c EmptyString
  | None => EmptyString
  end.

(** [appendDecimal] on a [uint8]. *)
Definition appendDecimal (x : N) : string :=
  ((if 100 <=? x then digit (x / 100) else "")
   ++ (if 10 <=? x then digit (x / 10 mod 10) else "")
   ++ digit (x mod 10))%N%string.

(** [appendHex] on a [uint16]. *)
Definition appendHex (x : N) : string :=
  ((if 4096 <=? x then digit (N.shiftr x 12) else "")
   ++ (if 256 <=? x then digit (N.land (N.shiftr x 8) 15) else "")
   ++ (if 16 <=? x then digit (N.land (N.shiftr x 4) 15) else "")
   ++ digit (N.land x 15))%N%string.

Definition v4 (ip : net.IP) (i : nat) : N := Byte.to_N (net.at_ ip i).

(** Dotted-decimal form of a 4-byte address. *)
Definition string4 (ip : net.IP) : string :=
  (appendDecimal (v4 ip 0) ++ "." ++ appendDecimal (v4 ip 1) ++ "."
   ++ appendDecimal (v4 ip 2) ++ "." ++ appendDecimal (v4 ip 3))%string.

(** The [i]-th 16-bit group of a 16-byte address. *)
Definition v6u16 (ip : net.IP) (i : nat) : N :=
  N.lor (N.shiftl (Byte.to_N (net.at_ ip (2 * i))) 8)
        (Byte.to_N (net.at_ ip (2 * i + 1))).

(** The inner loop [for j < 8 && ip.v6u16(j) == 0 { j++ }]. *)
Fixpoint runEnd (isz : nat -> bool) (fuel j : nat) : nat :=
  match fuel with
  | O => j
  | S fuel' =>
      if Nat.ltb j 8 && isz j then runEnd isz fuel' (S j) else j
  end.

(** The loop that finds the zero run to compress, from index [i] with the
    current best run [zeroStart, zeroEnd). *)
Fixpoint findZeros (isz : nat -> bool) (fuel i zeroStart zeroEnd : nat)
  : nat * nat :=
  match fuel with
  | O => (zeroStart, zeroEnd)
  | S fuel' =>
      if Nat.ltb i 8 then
        let j := runEnd isz 8 i in
        let l := (j - i)%nat in
        if Nat.leb 2 l && Nat.ltb (zeroEnd - zeroStart) l
        then findZeros isz fuel' (S i) i j
        else findZeros isz fuel' (S i) zeroStart zeroEnd
      else (zeroStart, zeroEnd)
  end.

(** The loop that prints the groups, from index [i]. *)
Fixpoint emit (grp : nat -> N) (zeroStart zeroEnd fuel i : nat) : string :=
  match fuel with
  | O => ""
  | S fuel' =>
      if Nat.ltb i 8 then
        if Nat.eqb i zeroStart then
          ("::" ++ (if Nat.leb 8 zeroEnd then ""
                    else appendHex (grp zeroEnd)
                         ++ emit grp zeroStart zeroEnd fuel' (S zeroEnd)))
        else
          ((if Nat.ltb 0 i then ":" else "")
           ++ appendHex (grp i) ++ emit grp zeroStart zeroEnd fuel' (S i))
      else ""
  end%string.

(** Colon-hex form of a 16-byte address. *)
Definition string6 (ip : net.IP) : string :=
  let '(zeroStart, zeroEnd) :=
    findZeros (fun j => N.eqb (v6u16 ip j) 0) 8 0 255 255 in
  emit (v6u16 ip) zeroStart zeroEnd 8 0.

Definition Is4In6 (ip : net.IP) : bool :=
  net.isZeros (firstn 10 ip)
  && Byte.eqb (net.at_ ip 10) xff && Byte.eqb (net.at_ ip 11) xff.

(** [AddrFrom16(ip).String()]. *)
Definition string16 (ip : net.IP) : string :=
  if Is4In6 ip then ("::ffff:" ++ string4 (skipn 12 ip))%string
  else string6 ip.

End netip.

(** [hexString]: two lower-case hexadecimal digits per byte. *)
Definition hexString (b : list byte) : string :=
  String.concat ""
    (map (fun tn => (netip.digit (N.shiftr (Byte.to_N tn) 4)
                     ++ netip.digit (N.land (Byte.to_N tn) 15))%string) b).

(** [ip.String()]. *)
Definition IP_String (ip : net.IP) : string :=
  if Nat.eqb (length ip) 0 then "<nil>"%string
  else if negb (Nat.eqb (length ip) net.IPv4len)
          && negb (Nat.eqb (length ip) net.IPv6len)
       then ("?" ++ hexString ip)%string
       else match net.To4 ip with
            | Some p4 =>
                if Nat.eqb (length p4) net.IPv4len then netip.string4 p4
                else netip.string16 ip
            | None => netip.string16 ip
            end.

(** [fmt.Sprintf("%s-%s", r.Start, r.End)]: the verb [%s] prints a [net.IP]
    through its [String] method. *)
Definition v4Range_String (r : v4Range) : string :=
  (IP_String (v4Start r) ++ "-" ++ IP_String (v4End r))%string.

Definition v6Range_String (r : v6Range) : string :=
  (IP_String (v6Start r) ++ "-" ++ IP_String (v6End r))%string.

Definition Range_String (r : Range) : string :=
  match r with
  | R4 r => v4Range_String r
  | R6 r => v6Range_String r
  end.

(** *** Canonical text forms, as the specification words them *)

Definition decimal (n : N) : string :=
  DecimalString.NilZero.string_of_uint (N.to_uint n).

Definition hexadecimal (n : N) : string :=
  HexadecimalString.NilZero.string_of_uint (N.to_hex_uint n).

(** Dotted-decimal: the bytes in decimal, joined by dots. *)
Definition dottedDecimal (ip4 : list byte) : string :=
  String.concat "." (map (fun b => decimal (Byte.to_N b)) ip4).

(** The 16-bit groups of a byte sequence, most significant byte first. *)
Fixpoint groups (l : list byte) : list N :=
  match l with
  | hi :: lo :: l' => (Byte.to_N hi * 256 + Byte.to_N lo)%N :: groups l'
  | _ => []
  end.

(** Number of zero groups at the head of a list. *)
Fixpoint leadingZeros (g : list N) : nat :=
  match g with
  | 0%N :: g' => S (leadingZeros g')
  | _ => O
  end.

(** Position and length of the longest run of zero groups, the leftmost one
    among runs of equal length. *)
Fixpoint longestZeroRun (g : list N) : nat * nat :=
  match g with
  | [] => (O, O)
  | _ :: g' =>
      let '(p, l) := longestZeroRun g' in
      let l0 := leadingZeros g in
      if Nat.leb l l0 then (O, l0) else (S p, l)
  end.

(** Shortest colon-hex form: groups in hexadecimal without leading zeros,
    joined by colons, the longest run of two or more zero groups replaced by
    a double colon. *)
Definition colonHexGroups (g : list N) : string :=
  let '(p, l) := longestZeroRun g in
  if Nat.leb 2 l
  then (String.concat ":" (map hexadecimal (firstn p g)) ++ "::"
        ++ String.concat ":" (map hexadecimal (skipn (p + l) g)))%string
  else String.concat ":" (map hexadecimal g).

Definition colonHex (ip16 : list byte) : string :=
  colonHexGroups (groups ip16).

(** The canonical text of an address of a family. *)
Definition canonicalText (f : Family) (ip : net.IP) : string :=
  match f with
  | V4Family => dottedDecimal (fixedWidth ip)
  | V6Family => colonHex (fixedWidth ip)
  end.

(** ** Addresses for the examples *)

Definition ip4 (a b c d : N) : net.IP := [B a; B b; B c; B d].

Definition mapped4 (a b c d : N) : net.IP := net.IPv4 (B a) (B b) (B c) (B d).

(** A 16-byte address from its eight groups. *)
Definition ip6 (g : list N) : net.IP :=
  flat_map (fun x => [B (x / 256); B (x mod 256)]%N) g.

(** ** Notions for the coverage of a range *)

(** The [w]-byte big-endian form of an integer. *)
Fixpoint be_bytes (w : nat) (n : Z) : list byte :=
  match w with
  | O => []
  | S w' => B (Z.to_N ((n / 256 ^ Z.of_nat w') mod 256)) :: be_bytes w' n
  end.

(** The integers from [lo] to [hi], in order. *)
Definition between (lo hi : Z) : list Z :=
  map (fun k => lo + Z.of_nat k) (seq 0 (Z.to_nat (hi - lo + 1))).

(** The byte sequences of the width of the stored start whose value lies
    between the values of the two stored boundaries. *)
Definition candidatesBetween (r : Range) : list net.IP :=
  map (be_bytes (length (Range_Start r)))
      (between (be_uint (Range_Start r)) (be_uint (Range_End r))).

(** Reading the decimal numbers of a text back, dots and dashes taken as
    separators. *)
Fixpoint readNumbers (s : string) (cur : N) : list N :=
  match s with
  | EmptyString => [cur]
  | String c s' =>
      if Ascii.eqb c "." || Ascii.eqb c "-"
      then cur :: readNumbers s' 0%N
      else readNumbers s' (cur * 10 + (N_of_ascii c - 48))%N
  end.

(** * Properties *)

(** ** Bytes *)

Lemma to_N_inj (x y : byte) : Byte.to_N x = Byte.to_N y -> x = y.
Proof.
  intros H.
  assert (E : Some x = Some y)
    by (rewrite <- (Byte.of_to_N x), <- (Byte.of_to_N y), H; reflexivity).
  now inversion E.
Qed.

Lemma byteZ_range (b : byte) : 0 <= byteZ b < 256.
Proof.
  unfold byteZ. pose proof (Byte.to_N_bounded b). lia.
Qed.

Lemma byteZ_lt (x y : byte) :
  (Byte.to_N x < Byte.to_N y)%N <-> byteZ x < byteZ y.
Proof. unfold byteZ. lia. Qed.

Lemma B_to_N (b : byte) : B (Byte.to_N b) = b.
Proof. unfold B. now rewrite Byte.of_to_N. Qed.

(** ** [bytes.Compare] *)

Section Compare.

Import bytes.

Lemma Compare_cases (a b : list byte) :
  Compare a b = -1 \/ Compare a b = 0 \/ Compare a b = 1.
Proof.
  revert b. induction a as [|x a IH]; intros [|y b]; simpl; auto.
  destruct (Byte.to_N x ?= Byte.to_N y)%N; auto.
Qed.

Lemma Compare_refl (a : list byte) : Compare a a = 0.
Proof.
  induction a as [|x a IH]; simpl; [reflexivity|].
  now rewrite N.compare_refl.
Qed.

Lemma Compare_antisym (a b : list byte) : Compare b a = - Compare a b.
Proof.
  revert b. induction a as [|x a IH]; intros [|y b]; simpl; try reflexivity.
  rewrite (N.compare_antisym (Byte.to_N x) (Byte.to_N y)).
  destruct (Byte.to_N x ?= Byte.to_N y)%N; simpl; auto.
Qed.

Lemma Compare_eq (a b : list byte) : Compare a b = 0 <-> a = b.
Proof.
  split; [|intros ->; apply Compare_refl].
  revert b. induction a as [|x a IH]; intros [|y b]; simpl;
    try reflexivity; try discriminate.
  destruct (Byte.to_N x ?= Byte.to_N y)%N eqn:E; try discriminate.
  intros H. apply N.compare_eq in E. apply to_N_inj in E.
  f_equal; auto.
Qed.

(** On sequences of one width, [Compare] decides the lexicographic order. *)
Lemma Compare_lt (a b : list byte) :
  length a = length b -> (Compare a b = -1 <-> lex_lt a b).
Proof.
  revert b. induction a as [|x a IH]; intros [|y b] L; simpl in *;
    try discriminate.
  - split; [discriminate | inversion 1].
  - injection L as L.
    destruct (Byte.to_N x ?= Byte.to_N y)%N eqn:E.
    + apply N.compare_eq in E. apply to_N_inj in E. subst y.
      rewrite (IH b L). split; [now constructor|].
      inversion 1; subst; [lia | assumption].
    + split; [intros _|reflexivity].
      constructor; [now apply N.compare_lt_iff | assumption].
    + split; [discriminate|].
      apply N.compare_gt_iff in E.
      inversion 1; subst; lia.
Qed.

Lemma Compare_gt (a b : list byte) :
  length a = length b -> (Compare a b = 1 <-> lex_lt b a).
Proof.
  intros L. rewrite <- (Compare_lt b a) by congruence.
  rewrite (Compare_antisym a b). lia.
Qed.

Lemma Compare_le (a b : list byte) :
  length a = length b -> ((Compare a b <=? 0) = true <-> lex_le a b).
Proof.
  intros L. unfold lex_le.
  rewrite <- (Compare_lt a b L), <- (Compare_eq a b), Z.leb_le.
  destruct (Compare_cases a b) as [H|[H|H]]; rewrite H; lia.
Qed.


(** A common prefix does not change the result. *)
Lemma Compare_app (p a b : list byte) :
  Compare (p ++ a) (p ++ b) = Compare a b.
Proof.
  induction p as [|x p IH]; simpl; [reflexivity|].
  now rewrite N.compare_refl.
Qed.

End Compare.

(** ** The lexicographic order and the big-endian value *)

Lemma lex_lt_length (a b : list byte) : lex_lt a b -> length a = length b.
Proof. induction 1; simpl; congruence. Qed.

Lemma lex_lt_irrefl (a : list byte) : ~ lex_lt a a.
Proof.
  intros H. apply Compare_lt in H; [|reflexivity].
  rewrite Compare_refl in H. discriminate.
Qed.

Lemma lex_lt_asym (a b : list byte) : lex_lt a b -> ~ lex_lt b a.
Proof.
  intros H H'. pose proof (lex_lt_length _ _ H) as L.
  apply Compare_lt in H; [|assumption].
  apply Compare_gt in H'; [|assumption]. congruence.
Qed.

Lemma lex_total (a b : list byte) :
  length a = length b -> lex_le a b \/ lex_lt b a.
Proof.
  intros L. unfold lex_le.
  rewrite <- (Compare_lt a b L), <- (Compare_gt a b L), <- (Compare_eq a b).
  destruct (Compare_cases a b) as [H|[H|H]]; auto.
Qed.

Lemma be_uint_range (l : list byte) :
  0 <= be_uint l < 256 ^ Z.of_nat (length l).
Proof.
  induction l as [|b l IH]; simpl be_uint; simpl length; [simpl; lia|].
  rewrite Nat2Z.inj_succ, Z.pow_succ_r by lia.
  pose proof (byteZ_range b). nia.
Qed.

Lemma lex_lt_be_uint (a b : list byte) : lex_lt a b -> be_uint a < be_uint b.
Proof.
  induction 1 as [x y a b Hxy L | x a b H IH]; simpl be_uint.
  - apply byteZ_lt in Hxy. rewrite L.
    pose proof (be_uint_range a). pose proof (be_uint_range b).
    rewrite L in *. nia.
  - apply lex_lt_length in H. rewrite H. lia.
Qed.

(** Byte-wise order on one width is the numeric order of the values. *)
Lemma lex_lt_iff_be_uint (a b : list byte) :
  length a = length b -> (lex_lt a b <-> be_uint a < be_uint b).
Proof.
  intros L. split; [apply lex_lt_be_uint|].
  intros H. destruct (lex_total b a) as [[->|H']|H']; auto; try lia.
  apply lex_lt_be_uint in H'. lia.
Qed.

Lemma lex_le_iff_be_uint (a b : list byte) :
  length a = length b -> (lex_le a b <-> be_uint a <= be_uint b).
Proof.
  intros L. split.
  - intros [->|H]; [lia | apply lex_lt_be_uint in H; lia].
  - intros H. destruct (lex_total a b L) as [H'|H']; auto.
    apply lex_lt_be_uint in H'. lia.
Qed.

(** ** [To4], [To16] and the family of an address *)

Ltac bytes_eq :=
  repeat match goal with
         | H : _ && _ = true |- _ => apply andb_prop in H; destruct H
         | H : Byte.eqb _ _ = true |- _ => apply Byte.byte_dec_bl in H
         end.

Lemma To4_inv (ip a : net.IP) :
  net.To4 ip = Some a ->
  length a = 4%nat /\ (ip = a \/ ip = net.v4InV6Prefix ++ a).
Proof.
  unfold net.To4, net.IPv4len, net.IPv6len.
  destruct (Nat.eqb (length ip) 4) eqn:L4.
  - intros [= <-]. apply Nat.eqb_eq in L4. auto.
  - destruct (Nat.eqb (length ip) 16) eqn:L16; [|discriminate].
    apply Nat.eqb_eq in L16.
    do 17 (destruct ip as [|? ip]; try discriminate L16).
    unfold net.at_, net.isZeros. simpl.
    match goal with
    | |- (if ?c then _ else _) = _ -> _ => destruct c eqn:C; [|discriminate]
    end.
    intros [= <-]. bytes_eq. subst. auto.
Qed.

Lemma To4_length (ip a : net.IP) : net.To4 ip = Some a -> length a = 4%nat.
Proof. intros H. now apply To4_inv in H. Qed.

Lemma To4_ip4 (a : net.IP) : length a = 4%nat -> net.To4 a = Some a.
Proof. intros L. unfold net.To4. now rewrite L. Qed.

Lemma To4_mapped (a : net.IP) :
  length a = 4%nat -> net.To4 (net.v4InV6Prefix ++ a) = Some a.
Proof.
  intros L. do 5 (destruct a as [|? a]; try discriminate L). reflexivity.
Qed.

Lemma To4_None_To16 (ip : net.IP) :
  net.To4 ip = None ->
  net.To16 ip = if Nat.eqb (length ip) 16 then Some ip else None.
Proof.
  unfold net.To4, net.To16, net.IPv4len, net.IPv6len.
  now destruct (Nat.eqb (length ip) 4).
Qed.

Lemma familyOf_V4 (ip : net.IP) :
  familyOf ip = Some V4Family <-> exists a, net.To4 ip = Some a.
Proof.
  unfold familyOf. destruct (net.To4 ip) as [a|] eqn:E.
  - split; eauto.
  - split; [destruct (net.To16 ip); discriminate | intros [a [=]]].
Qed.

Lemma familyOf_V6 (ip : net.IP) :
  familyOf ip = Some V6Family <->
  net.To4 ip = None /\ length ip = 16%nat.
Proof.
  unfold familyOf. destruct (net.To4 ip) as [a|] eqn:E.
  - split; [discriminate | intros [[=] _]].
  - rewrite (To4_None_To16 ip E).
    destruct (Nat.eqb (length ip) 16) eqn:L.
    + apply Nat.eqb_eq in L. tauto.
    + apply Nat.eqb_neq in L. split; [discriminate | tauto].
Qed.

Lemma fixedWidth_V4 (ip a : net.IP) : net.To4 ip = Some a -> fixedWidth ip = a.
Proof. unfold fixedWidth. now intros ->. Qed.

Lemma fixedWidth_V6 (ip : net.IP) :
  net.To4 ip = None -> fixedWidth ip = ip.
Proof.
  intros E. unfold fixedWidth. rewrite E, (To4_None_To16 ip E).
  now destruct (Nat.eqb (length ip) 16).
Qed.

(** ** The constructor *)

Lemma isV6IP_iff (ip : net.IP) :
  isV6IP ip = true <-> net.To4 ip = None /\ length ip = 16%nat.
Proof.
  unfold isV6IP, isV4IP. destruct (net.To4 ip) as [a|] eqn:E; simpl.
  - split; [discriminate | intros [[=] _]].
  - rewrite (To4_None_To16 ip E).
    destruct (Nat.eqb (length ip) 16) eqn:L.
    + apply Nat.eqb_eq in L. tauto.
    + apply Nat.eqb_neq in L. split; [discriminate | tauto].
Qed.

Lemma isV4RangeValid_iff (s e : net.IP) :
  isV4RangeValid s e = true <->
  exists a b, net.To4 s = Some a /\ net.To4 e = Some b /\ lex_le a b.
Proof.
  unfold isV4RangeValid.
  destruct (net.To4 s) as [a|] eqn:Es; [destruct (net.To4 e) as [b|] eqn:Ee|].
  - rewrite Compare_le
      by (apply To4_length in Es, Ee; congruence).
    split; [eauto|]. now intros (a' & b' & [= <-] & [= <-] & H).
  - split; [discriminate | intros (? & ? & _ & [=] & _)].
  - split; [discriminate | intros (? & ? & [=] & _)].
Qed.

Lemma isV6RangeValid_iff (s e : net.IP) :
  isV6RangeValid s e = true <->
  (net.To4 s = None /\ length s = 16%nat) /\
  (net.To4 e = None /\ length e = 16%nat) /\ lex_le s e.
Proof.
  unfold isV6RangeValid.
  rewrite !andb_true_iff, !isV6IP_iff.
  split.
  - intros [[[Es Ls] [Ee Le]] H]. repeat split; auto.
    rewrite (To4_None_To16 s Es), (To4_None_To16 e Ee), Ls, Le in H.
    simpl in H. apply Compare_le in H; [assumption | congruence].
  - intros [[Es Ls] [[Ee Le] H]]. repeat split; auto.
    rewrite (To4_None_To16 s Es), (To4_None_To16 e Ee), Ls, Le. simpl.
    apply Compare_le; [congruence | assumption].
Qed.

Lemma New_R4 (s e : net.IP) (r : v4Range) :
  New s e = Some (R4 r) <->
  r = mk_v4Range s e /\
  exists a b, net.To4 s = Some a /\ net.To4 e = Some b /\ lex_le a b.
Proof.
  rewrite <- isV4RangeValid_iff. unfold New.
  destruct (isV4RangeValid s e).
  - split; [now intros [= <-] | now intros [-> _]].
  - split; [destruct (isV6RangeValid s e); discriminate | intros [_ [=]]].
Qed.

Lemma New_R6 (s e : net.IP) (r : v6Range) :
  New s e = Some (R6 r) <->
  r = mk_v6Range s e /\
  (net.To4 s = None /\ length s = 16%nat) /\
  (net.To4 e = None /\ length e = 16%nat) /\ lex_le s e.
Proof.
  rewrite <- isV6RangeValid_iff. unfold New.
  destruct (isV4RangeValid s e) eqn:V4.
  - split; [discriminate|]. intros [_ V6].
    apply isV4RangeValid_iff in V4. apply isV6RangeValid_iff in V6.
    destruct V4 as (a & _ & E & _). destruct V6 as [[E' _] _]. congruence.
  - destruct (isV6RangeValid s e).
    + split; [now intros [= <-] | now intros [-> _]].
    + split; [discriminate | intros [_ [=]]].
Qed.

Lemma New_None (s e : net.IP) :
  New s e = None <-> isV4RangeValid s e = false /\ isV6RangeValid s e = false.
Proof.
  unfold New.
  destruct (isV4RangeValid s e), (isV6RangeValid s e);
    split; try discriminate; try tauto; intros [? ?]; discriminate.
Qed.

Lemma New_Some_valid (s e : net.IP) (r : Range) :
  New s e = Some r -> Range_Start r = s /\ Range_End r = e /\ ValidRange r.
Proof.
  destruct r as [r|r]; intros H.
  - apply New_R4 in H. destruct H as (-> & a & b & Es & Ee & Hle).
    unfold ValidRange. simpl.
    rewrite (fixedWidth_V4 s a Es), (fixedWidth_V4 e b Ee).
    repeat split; auto; apply familyOf_V4; eauto.
  - apply New_R6 in H. destruct H as (-> & [Es Ls] & [Ee Le] & Hle).
    unfold ValidRange. simpl.
    rewrite (fixedWidth_V6 s Es), (fixedWidth_V6 e Ee).
    repeat split; auto; apply familyOf_V6; auto.
Qed.

Lemma ValidRange_not_invalid (r : Range) :
  ValidRange r -> ~ InvalidRange (Range_Start r) (Range_End r).
Proof.
  intros (Fs & Fe & Hle) [H|H|H|H]; try congruence.
  destruct Hle as [Heq|Hlt].
  - rewrite Heq in H. now apply lex_lt_irrefl in H.
  - now apply lex_lt_asym in H.
Qed.

Lemma New_None_invalid (s e : net.IP) : New s e = None -> InvalidRange s e.
Proof.
  intros H. apply New_None in H. destruct H as [V4 V6].
  destruct (familyOf s) as [[|]|] eqn:Fs; [| |now apply invalid_start];
    (destruct (familyOf e) as [[|]|] eqn:Fe; [| |now apply invalid_end]);
    try (apply family_mismatch; congruence).
  - apply familyOf_V4 in Fs, Fe. destruct Fs as [a Es], Fe as [b Ee].
    apply start_after_end.
    rewrite (fixedWidth_V4 s a Es), (fixedWidth_V4 e b Ee).
    destruct (lex_total a b) as [Hle|Hlt]; auto.
    + apply To4_length in Es, Ee. congruence.
    + assert (isV4RangeValid s e = true)
        by (apply isV4RangeValid_iff; eauto).
      congruence.
  - apply familyOf_V6 in Fs, Fe. destruct Fs as [Es Ls], Fe as [Ee Le].
    apply start_after_end.
    rewrite (fixedWidth_V6 s Es), (fixedWidth_V6 e Ee).
    destruct (lex_total s e) as [Hle|Hlt]; auto; [congruence|].
    assert (isV6RangeValid s e = true)
      by (apply isV6RangeValid_iff; auto).
    congruence.
Qed.

(** C1.  [New] is a total function; it returns nil exactly when the pair is
    invalid -- one of the addresses is no IP address, the families differ, or
    start > end byte-wise in the fixed-width form -- and every range it
    returns holds the two addresses as given and satisfies the invariant of
    a range. *)
Theorem New_nil_iff_invalid (s e : net.IP) :
  (New s e = None <-> InvalidRange s e) /\
  (forall r, New s e = Some r ->
             Range_Start r = s /\ Range_End r = e /\ ValidRange r) /\
  (~ InvalidRange s e -> exists r, New s e = Some r).
Proof.
  assert (Hsome : forall r, New s e = Some r -> ~ InvalidRange s e).
  { intros r H. destruct (New_Some_valid s e r H) as (Hs & He & Hv).
    apply ValidRange_not_invalid in Hv. now rewrite Hs, He in Hv. }
  split; [split|split].
  - apply New_None_invalid.
  - intros Hinv. destruct (New s e) as [r|] eqn:E; [|reflexivity].
    now destruct (Hsome r eq_refl).
  - apply New_Some_valid.
  - intros Hok. destruct (New s e) as [r|] eqn:E; [eauto|].
    now apply New_None_invalid in E.
Qed.

Lemma New_nil_iff_invalid_witness :
  New (ip4 10 0 0 5) (ip4 10 0 0 1) = None /\
  InvalidRange (ip4 10 0 0 5) (ip4 10 0 0 1) /\
  New (ip4 192 168 1 1) (ip6 [0; 0; 0; 0; 0; 0; 0; 1]%N) = None /\
  InvalidRange (ip4 192 168 1 1) (ip6 [0; 0; 0; 0; 0; 0; 0; 1]%N) /\
  ValidRange (R4 (mk_v4Range (ip4 10 0 0 1) (ip4 10 0 0 255))).
Proof.
  split; [reflexivity|]. split.
  - apply (proj1 (proj1 (New_nil_iff_invalid
                           (ip4 10 0 0 5) (ip4 10 0 0 1)))).
    reflexivity.
  - split; [reflexivity|]. split.
    + apply (proj1 (proj1 (New_nil_iff_invalid
                             (ip4 192 168 1 1)
                             (ip6 [0; 0; 0; 0; 0; 0; 0; 1]%N)))).
      reflexivity.
    + apply (proj1 (proj2 (New_nil_iff_invalid
                             (ip4 10 0 0 1) (ip4 10 0 0 255)))
               (R4 (mk_v4Range (ip4 10 0 0 1) (ip4 10 0 0 255)))).
      reflexivity.
Defined.

(** ** Integers of addresses *)

Lemma int64_small (z : Z) : - 2 ^ 63 <= z < 2 ^ 63 -> int64 z = z.
Proof.
  intros H. unfold int64. rewrite Z.mod_small; lia.
Qed.

Lemma lor_shifted (x y k : Z) :
  0 <= k -> 0 <= y < 2 ^ k -> Z.lor (x * 2 ^ k) y = x * 2 ^ k + y.
Proof.
  intros Hk Hy.
  assert (D : Z.land (x * 2 ^ k) y = 0).
  { apply Z.bits_inj'. intros n Hn.
    rewrite Z.land_spec, Z.bits_0, <- Z.shiftl_mul_pow2 by assumption.
    destruct (Z.lt_ge_cases n k) as [Hlt|Hge].
    - now rewrite Z.shiftl_spec_low.
    - destruct (Z.eq_dec y 0) as [->|Hy0];
        [now rewrite Z.bits_0, andb_false_r|].
      rewrite (Z.bits_above_log2 y n), andb_false_r; [reflexivity|lia|].
      apply Z.log2_lt_pow2; [lia|].
      apply Z.lt_le_trans with (2 ^ k); [lia|].
      apply Z.pow_le_mono_r; lia. }
  now rewrite <- Z.lxor_lor, <- Z.add_nocarry_lxor.
Qed.

Lemma shl64_byte (b : byte) (k : Z) :
  0 <= k <= 24 -> shl64 (byteZ b) k = byteZ b * 2 ^ k.
Proof.
  intros Hk. unfold shl64. rewrite Z.shiftl_mul_pow2 by lia.
  pose proof (byteZ_range b).
  assert (2 ^ k <= 2 ^ 24) by (apply Z.pow_le_mono_r; lia).
  assert (0 < 2 ^ k) by (apply Z.pow_pos_nonneg; lia).
  apply int64_small. change (2 ^ 24) with 16777216 in *.
  change (2 ^ 63) with 9223372036854775808. nia.
Qed.

(** [v4ToInt] is the big-endian value of the 4-byte form. *)
Lemma v4ToInt_be_uint (ip a : net.IP) :
  net.To4 ip = Some a -> v4ToInt ip = Some (be_uint a).
Proof.
  intros E. unfold v4ToInt. rewrite E. apply To4_length in E.
  destruct a as [|b0 [|b1 [|b2 [|b3 [|? ?]]]]]; try discriminate E.
  cbv [nth_error]. f_equal.
  rewrite !shl64_byte by lia.
  pose proof (byteZ_range b0). pose proof (byteZ_range b1).
  pose proof (byteZ_range b2). pose proof (byteZ_range b3).
  rewrite (lor_shifted (byteZ b0) (byteZ b1 * 2 ^ 16) 24) by lia.
  replace (byteZ b0 * 2 ^ 24 + byteZ b1 * 2 ^ 16)
    with ((byteZ b0 * 2 ^ 8 + byteZ b1) * 2 ^ 16) by lia.
  rewrite (lor_shifted _ (byteZ b2 * 2 ^ 8) 16) by lia.
  replace ((byteZ b0 * 2 ^ 8 + byteZ b1) * 2 ^ 16 + byteZ b2 * 2 ^ 8)
    with (((byteZ b0 * 2 ^ 8 + byteZ b1) * 2 ^ 8 + byteZ b2) * 2 ^ 8) by lia.
  rewrite (lor_shifted _ (byteZ b3) 8) by lia.
  simpl be_uint. simpl length. lia.
Qed.

Lemma SetBytes_acc (l : list byte) (acc : Z) :
  fold_left (fun acc b => acc * 256 + byteZ b) l acc
  = acc * 256 ^ Z.of_nat (length l) + be_uint l.
Proof.
  revert acc. induction l as [|b l IH]; intros acc; simpl fold_left.
  - simpl. lia.
  - rewrite IH. simpl be_uint. simpl length.
    rewrite Nat2Z.inj_succ, Z.pow_succ_r by lia. lia.
Qed.

(** [SetBytes] is the big-endian value. *)
Lemma SetBytes_be_uint (l : list byte) : big.SetBytes l = be_uint l.
Proof.
  unfold big.SetBytes. rewrite SetBytes_acc. lia.
Qed.

Lemma be_uint_4 (a : list byte) : length a = 4%nat -> 0 <= be_uint a < 2 ^ 32.
Proof.
  intros L. pose proof (be_uint_range a) as H. rewrite L in H. exact H.
Qed.

Lemma be_uint_16 (a : list byte) :
  length a = 16%nat -> 0 <= be_uint a < 2 ^ 128.
Proof.
  intros L. pose proof (be_uint_range a) as H. rewrite L in H. exact H.
Qed.

(** The size of an IPv4 range whose boundaries are IPv4 addresses. *)
Lemma v4Range_Size_be_uint (r : v4Range) (a b : net.IP) :
  net.To4 (v4Start r) = Some a -> net.To4 (v4End r) = Some b ->
  v4Range_Size r = Some (be_uint b - be_uint a + 1).
Proof.
  intros Ea Eb. unfold v4Range_Size.
  rewrite (v4ToInt_be_uint _ _ Ea), (v4ToInt_be_uint _ _ Eb).
  pose proof (be_uint_4 a (To4_length _ _ Ea)).
  pose proof (be_uint_4 b (To4_length _ _ Eb)).
  change (2 ^ 32) with 4294967296 in *.
  unfold add64, sub64. f_equal.
  rewrite (int64_small (be_uint b - be_uint a))
    by (change (2 ^ 63) with 9223372036854775808; lia).
  apply int64_small. change (2 ^ 63) with 9223372036854775808. lia.
Qed.

Lemma v6Range_Size_be_uint (r : v6Range) :
  v6Range_Size r = be_uint (v6End r) - be_uint (v6Start r) + 1.
Proof.
  unfold v6Range_Size. rewrite !SetBytes_be_uint. lia.
Qed.

(** ** Membership *)



Lemma Contains_unfold (r : Range) (ip : net.IP) :
  Range_Contains r ip
  = (bytes.Compare ip (Range_Start r) >=? 0)
    && (bytes.Compare ip (Range_End r) <=? 0).
Proof. now destruct r. Qed.



(** C10.  [Contains] compares the candidate's bytes as they are supplied:
    there is an IPv4 range stored in the 16-byte mapped form that rejects the
    4-byte form of an address inside it while it accepts the mapped form of
    that address, and an IPv4 range stored in the 4-byte form that rejects
    the mapped form of an address inside it while it accepts the 4-byte
    form. *)
Theorem Contains_depends_on_width :
  (exists s e r ip ip', 
      New s e = Some r /\ Range_Family r = V4Family /\
      length (Range_Start r) = 16%nat /\ length (Range_End r) = 16%nat /\
      length ip = 4%nat /\ net.To4 ip' = Some ip /\
      be_uint (fixedWidth s) <= be_uint ip <= be_uint (fixedWidth e) /\
      Range_Contains r ip = false /\ Range_Contains r ip' = true) /\
  (exists s e r ip ip',
      New s e = Some r /\ Range_Family r = V4Family /\
      length (Range_Start r) = 4%nat /\ length (Range_End r) = 4%nat /\
      length ip = 4%nat /\ length ip' = 16%nat /\ net.To4 ip' = Some ip /\
      be_uint (fixedWidth s) <= be_uint ip <= be_uint (fixedWidth e) /\
      Range_Contains r ip' = false /\ Range_Contains r ip = true).
Proof.
  split.
  - exists (mapped4 10 0 0 1), (mapped4 10 0 0 255),
      (R4 (mk_v4Range (mapped4 10 0 0 1) (mapped4 10 0 0 255))),
      (ip4 10 0 0 5), (mapped4 10 0 0 5).
    repeat split; try reflexivity; vm_compute; discriminate.
  - exists (ip4 10 0 0 1), (ip4 10 0 0 255),
      (R4 (mk_v4Range (ip4 10 0 0 1) (ip4 10 0 0 255))),
      (ip4 10 0 0 5), (mapped4 10 0 0 5).
    repeat split; try reflexivity; vm_compute; discriminate.
Qed.

(** ** Size *)

(** C3.  The size of a constructed IPv4 range is end_int - start_int + 1,
    the two integers being the unsigned 32-bit big-endian values of the
    4-byte forms of the boundaries. *)
Theorem v4_Size_formula (s e : net.IP) (r : Range) :
  New s e = Some r ->
  Range_Family r = V4Family ->
  length (fixedWidth s) = 4%nat /\ length (fixedWidth e) = 4%nat /\
  0 <= be_uint (fixedWidth s) < 2 ^ 32 /\
  0 <= be_uint (fixedWidth e) < 2 ^ 32 /\
  v4ToInt s = Some (be_uint (fixedWidth s)) /\
  v4ToInt e = Some (be_uint (fixedWidth e)) /\
  Range_Size r = Some (be_uint (fixedWidth e) - be_uint (fixedWidth s) + 1).
Proof.
  intros HN HF. destruct r as [r|r]; [|discriminate HF].
  apply New_R4 in HN. destruct HN as (-> & a & b & Es & Ee & _).
  rewrite (fixedWidth_V4 s a Es), (fixedWidth_V4 e b Ee).
  pose proof (To4_length _ _ Es) as La. pose proof (To4_length _ _ Ee) as Lb.
  repeat split; auto using v4ToInt_be_uint;
    try (now apply be_uint_4).
  now apply v4Range_Size_be_uint.
Qed.

Lemma v4_Size_formula_witness :
  New (ip4 10 0 0 1) (mapped4 10 0 0 255)
  = Some (R4 (mk_v4Range (ip4 10 0 0 1) (mapped4 10 0 0 255))) /\
  Range_Size (R4 (mk_v4Range (ip4 10 0 0 1) (mapped4 10 0 0 255)))
  = Some (be_uint (fixedWidth (mapped4 10 0 0 255))
          - be_uint (fixedWidth (ip4 10 0 0 1)) + 1).
Proof.
  split; [reflexivity|].
  apply (v4_Size_formula (ip4 10 0 0 1) (mapped4 10 0 0 255));
    reflexivity.
Defined.

(** C4.  The size of a constructed IPv6 range is end_int - start_int + 1 as
    an unbounded integer, the two integers being the unsigned 128-bit
    big-endian values of the 16-byte boundaries; it lies between 1 and
    2^128. *)
Theorem v6_Size_formula (s e : net.IP) (r : Range) :
  New s e = Some r ->
  Range_Family r = V6Family ->
  fixedWidth s = s /\ fixedWidth e = e /\
  length s = 16%nat /\ length e = 16%nat /\
  0 <= be_uint s < 2 ^ 128 /\ 0 <= be_uint e < 2 ^ 128 /\
  Range_Size r = Some (be_uint e - be_uint s + 1) /\
  1 <= be_uint e - be_uint s + 1 <= 2 ^ 128.
Proof.
  intros HN HF. destruct r as [r|r]; [discriminate HF|].
  apply New_R6 in HN. destruct HN as (-> & [Es Ls] & [Ee Le] & Hle).
  pose proof (be_uint_16 s Ls). pose proof (be_uint_16 e Le).
  apply lex_le_iff_be_uint in Hle; [|congruence].
  repeat split; auto using fixedWidth_V6; try lia.
  simpl. now rewrite v6Range_Size_be_uint.
Qed.

Lemma v6_Size_formula_witness :
  New (ip6 [0; 0; 0; 0; 0; 0; 0; 1]%N) (ip6 [0; 0; 0; 0; 0; 0; 0; 65535]%N)
  = Some (R6 (mk_v6Range (ip6 [0; 0; 0; 0; 0; 0; 0; 1]%N)
                         (ip6 [0; 0; 0; 0; 0; 0; 0; 65535]%N))) /\
  Range_Size (R6 (mk_v6Range (ip6 [0; 0; 0; 0; 0; 0; 0; 1]%N)
                             (ip6 [0; 0; 0; 0; 0; 0; 0; 65535]%N)))
  = Some (be_uint (ip6 [0; 0; 0; 0; 0; 0; 0; 65535]%N)
          - be_uint (ip6 [0; 0; 0; 0; 0; 0; 0; 1]%N) + 1).
Proof.
  split; [reflexivity|].
  apply (v6_Size_formula (ip6 [0; 0; 0; 0; 0; 0; 0; 1]%N)
                         (ip6 [0; 0; 0; 0; 0; 0; 0; 65535]%N));
    reflexivity.
Defined.

Lemma New_same (ip : net.IP) :
  familyOf ip <> None -> exists r, New ip ip = Some r.
Proof.
  intros H. destruct (New ip ip) as [r|] eqn:E; [eauto|].
  apply New_None_invalid in E.
  destruct E as [E|E|E|E]; try congruence.
  now apply lex_lt_irrefl in E.
Qed.

(** The size of any constructed range, and the order of the two values. *)
Lemma New_Size (s e : net.IP) (r : Range) :
  New s e = Some r ->
  Range_Size r = Some (be_uint (fixedWidth e) - be_uint (fixedWidth s) + 1)
  /\ be_uint (fixedWidth s) <= be_uint (fixedWidth e).
Proof.
  intros HN. destruct r as [r|r].
  - apply New_R4 in HN. destruct HN as (-> & a & b & Es & Ee & Hle).
    rewrite (fixedWidth_V4 s a Es), (fixedWidth_V4 e b Ee).
    split; [now apply v4Range_Size_be_uint|].
    apply lex_le_iff_be_uint; [|assumption].
    apply To4_length in Es, Ee. congruence.
  - apply New_R6 in HN. destruct HN as (-> & [Es Ls] & [Ee Le] & Hle).
    rewrite (fixedWidth_V6 s Es), (fixedWidth_V6 e Ee).
    split; [simpl; now rewrite v6Range_Size_be_uint|].
    apply lex_le_iff_be_uint; [congruence | assumption].
Qed.

(** C5.  The size of every constructed range is at least 1, and a valid
    address taken as both start and end gives a range of size exactly 1. *)
Theorem Size_at_least_one :
  (forall s e r, New s e = Some r ->
                 exists n, Range_Size r = Some n /\ 1 <= n) /\
  (forall ip, familyOf ip <> None ->
              exists r, New ip ip = Some r /\ Range_Size r = Some 1).
Proof.
  split.
  - intros s e r HN. apply New_Size in HN. destruct HN as [HS Hle].
    eexists. split; [exact HS | lia].
  - intros ip Hip. destruct (New_same ip Hip) as [r HN].
    exists r. split; [assumption|].
    apply New_Size in HN. destruct HN as [HS _]. rewrite HS. f_equal. lia.
Qed.

Lemma Size_at_least_one_witness :
  (exists n,
      Range_Size (R4 (mk_v4Range (ip4 10 0 0 1) (ip4 10 0 0 255))) = Some n
      /\ 1 <= n) /\
  (exists r, New (ip4 192 168 1 1) (ip4 192 168 1 1) = Some r
             /\ Range_Size r = Some 1) /\
  (exists r, New (ip6 [0; 0; 0; 0; 0; 0; 0; 1]%N)
                 (ip6 [0; 0; 0; 0; 0; 0; 0; 1]%N) = Some r
             /\ Range_Size r = Some 1).
Proof.
  split; [|split].
  - apply (proj1 Size_at_least_one (ip4 10 0 0 1) (ip4 10 0 0 255)).
    reflexivity.
  - apply (proj2 Size_at_least_one (ip4 192 168 1 1)). vm_compute. discriminate.
  - apply (proj2 Size_at_least_one (ip6 [0; 0; 0; 0; 0; 0; 0; 1]%N)).
    vm_compute. discriminate.
Defined.

(** The range from [::] to [ffff:ffff:ffff:ffff:ffff:ffff:ffff:ffff]. *)
Lemma full_v6_New :
  New (ip6 [0; 0; 0; 0; 0; 0; 0; 0]%N)
      (ip6 [65535; 65535; 65535; 65535; 65535; 65535; 65535; 65535]%N)
  = Some (R6 (mk_v6Range
                (ip6 [0; 0; 0; 0; 0; 0; 0; 0]%N)
                (ip6 [65535; 65535; 65535; 65535;
                      65535; 65535; 65535; 65535]%N))).
Proof. reflexivity. Qed.

(** C6, as stated, fails: the size of the full IPv6 range is not
    2^128 - 1. *)
Lemma full_v6_Size_not_pred :
  ~ (exists r,
        New (ip6 [0; 0; 0; 0; 0; 0; 0; 0]%N)
            (ip6 [65535; 65535; 65535; 65535;
                  65535; 65535; 65535; 65535]%N) = Some r
        /\ Range_Size r = Some (2 ^ 128 - 1)).
Proof.
  intros (r & HN & HS). rewrite full_v6_New in HN.
  injection HN as <-. vm_compute in HS. discriminate HS.
Qed.

(** C6, amended.  Constructing the range from [::] to
    [ffff:ffff:ffff:ffff:ffff:ffff:ffff:ffff] succeeds and its size is
    2^128, the number of all IPv6 addresses. *)
Theorem full_v6_Size :
  exists r,
    New (ip6 [0; 0; 0; 0; 0; 0; 0; 0]%N)
        (ip6 [65535; 65535; 65535; 65535;
              65535; 65535; 65535; 65535]%N) = Some r
    /\ Range_Family r = V6Family
    /\ Range_Size r = Some (2 ^ 128).
Proof.
  eexists. split; [apply full_v6_New|]. split; reflexivity.
Qed.

(** ** Family *)

(** C7.  Two valid addresses of one family with start <= end give a range of
    that family.  The IPv4 test comes first: when it holds the result is the
    IPv4 range, and a range of the IPv6 family has no boundary that is
    representable as IPv4. *)
Theorem New_family (s e : net.IP) (f : Family) :
  familyOf s = Some f ->
  familyOf e = Some f ->
  lex_le (fixedWidth s) (fixedWidth e) ->
  exists r,
    New s e = Some r /\ Range_Family r = f /\
    (isV4RangeValid s e = true -> r = R4 (mk_v4Range s e)) /\
    (Range_Family r = V6Family -> net.To4 s = None /\ net.To4 e = None).
Proof.
  intros Fs Fe Hle. destruct f.
  - apply familyOf_V4 in Fs, Fe. destruct Fs as [a Es], Fe as [b Ee].
    rewrite (fixedWidth_V4 s a Es), (fixedWidth_V4 e b Ee) in Hle.
    exists (R4 (mk_v4Range s e)). repeat split; try discriminate.
    apply New_R4. split; [reflexivity|eauto].
  - apply familyOf_V6 in Fs, Fe. destruct Fs as [Es Ls], Fe as [Ee Le].
    rewrite (fixedWidth_V6 s Es), (fixedWidth_V6 e Ee) in Hle.
    exists (R6 (mk_v6Range s e)). repeat split; auto.
    + apply New_R6. auto.
    + intros V4. apply isV4RangeValid_iff in V4.
      destruct V4 as (a & _ & E & _). congruence.
Qed.

Lemma New_family_witness :
  (exists r,
      New (ip4 10 0 0 1) (ip4 10 0 0 255) = Some r /\
      Range_Family r = V4Family /\
      (isV4RangeValid (ip4 10 0 0 1) (ip4 10 0 0 255) = true ->
       r = R4 (mk_v4Range (ip4 10 0 0 1) (ip4 10 0 0 255))) /\
      (Range_Family r = V6Family ->
       net.To4 (ip4 10 0 0 1) = None /\ net.To4 (ip4 10 0 0 255) = None)) /\
  (exists r,
      New (ip6 [0; 0; 0; 0; 0; 0; 0; 1]%N)
          (ip6 [0; 0; 0; 0; 0; 0; 0; 65535]%N) = Some r /\
      Range_Family r = V6Family /\
      (isV4RangeValid (ip6 [0; 0; 0; 0; 0; 0; 0; 1]%N)
                      (ip6 [0; 0; 0; 0; 0; 0; 0; 65535]%N) = true ->
       r = R4 (mk_v4Range (ip6 [0; 0; 0; 0; 0; 0; 0; 1]%N)
                          (ip6 [0; 0; 0; 0; 0; 0; 0; 65535]%N))) /\
      (Range_Family r = V6Family ->
       net.To4 (ip6 [0; 0; 0; 0; 0; 0; 0; 1]%N) = None /\
       net.To4 (ip6 [0; 0; 0; 0; 0; 0; 0; 65535]%N) = None)).
Proof.
  split.
  - apply (New_family (ip4 10 0 0 1) (ip4 10 0 0 255) V4Family);
      try reflexivity.
    apply Compare_le; reflexivity.
  - apply (New_family (ip6 [0; 0; 0; 0; 0; 0; 0; 1]%N)
                      (ip6 [0; 0; 0; 0; 0; 0; 0; 65535]%N) V6Family);
      try reflexivity.
    apply Compare_le; reflexivity.
Defined.

Lemma New_V4_after (s e a b : net.IP) :
  net.To4 s = Some a -> net.To4 e = Some b -> lex_lt b a -> New s e = None.
Proof.
  intros Es Ee H. apply New_None. split; apply not_true_is_false; intros V.
  - apply isV4RangeValid_iff in V.
    destruct V as (a' & b' & Es' & Ee' & [Heq|Hlt]).
    + rewrite Es in Es'. rewrite Ee in Ee'.
      injection Es' as <-. injection Ee' as <-.
      rewrite Heq in H. now apply lex_lt_irrefl in H.
    + rewrite Es in Es'. rewrite Ee in Ee'.
      injection Es' as <-. injection Ee' as <-.
      now apply lex_lt_asym in H.
  - apply isV6RangeValid_iff in V. destruct V as [[E _] _]. congruence.
Qed.

(** C8.  Whatever form -- 4 bytes or 16 bytes IPv4-mapped -- two IPv4
    addresses are supplied in, the constructor decides as it does on their
    4-byte forms: a range it returns is of the IPv4 family, it returns one
    whenever start <= end, and it fails exactly when it fails on the 4-byte
    forms. *)
Theorem mapped_form_is_V4 (s e a b : net.IP) :
  net.To4 s = Some a ->
  net.To4 e = Some b ->
  familyOf s = Some V4Family /\ familyOf e = Some V4Family /\
  (forall r, New s e = Some r -> Range_Family r = V4Family) /\
  (lex_le a b -> New s e = Some (R4 (mk_v4Range s e))) /\
  option_map Range_Family (New s e) = option_map Range_Family (New a b).
Proof.
  intros Es Ee.
  pose proof (To4_length _ _ Es) as La. pose proof (To4_length _ _ Ee) as Lb.
  assert (Hr : forall r, New s e = Some r -> Range_Family r = V4Family).
  { intros [r|r] HN; [reflexivity|].
    apply New_R6 in HN. destruct HN as (_ & [E _] & _). congruence. }
  assert (Hle : lex_le a b -> New s e = Some (R4 (mk_v4Range s e))).
  { intros H. apply New_R4. split; [reflexivity|eauto]. }
  split; [apply familyOf_V4; eauto|].
  split; [apply familyOf_V4; eauto|].
  split; [assumption|]. split; [assumption|].
  destruct (lex_total a b) as [H|H]; [congruence| |].
  - rewrite (Hle H).
    assert (E : New a b = Some (R4 (mk_v4Range a b))).
    { apply New_R4. split; [reflexivity|].
      exists a, b. auto using To4_ip4. }
    now rewrite E.
  - rewrite (New_V4_after s e a b Es Ee H).
    now rewrite (New_V4_after a b a b (To4_ip4 a La) (To4_ip4 b Lb) H).
Qed.

Lemma mapped_form_is_V4_witness :
  net.To4 (mapped4 10 0 0 1) = Some (ip4 10 0 0 1) /\
  net.To4 (mapped4 10 0 0 255) = Some (ip4 10 0 0 255) /\
  familyOf (mapped4 10 0 0 1) = Some V4Family /\
  familyOf (mapped4 10 0 0 255) = Some V4Family /\
  (forall r, New (mapped4 10 0 0 1) (mapped4 10 0 0 255) = Some r ->
             Range_Family r = V4Family) /\
  (lex_le (ip4 10 0 0 1) (ip4 10 0 0 255) ->
   New (mapped4 10 0 0 1) (mapped4 10 0 0 255)
   = Some (R4 (mk_v4Range (mapped4 10 0 0 1) (mapped4 10 0 0 255)))) /\
  option_map Range_Family (New (mapped4 10 0 0 1) (mapped4 10 0 0 255))
  = option_map Range_Family (New (ip4 10 0 0 1) (ip4 10 0 0 255)).
Proof.
  split; [reflexivity|]. split; [reflexivity|].
  apply (mapped_form_is_V4 (mapped4 10 0 0 1) (mapped4 10 0 0 255)
                           (ip4 10 0 0 1) (ip4 10 0 0 255));
    reflexivity.
Defined.

(** ** Text *)

Lemma string_app_assoc (a b c : string) :
  ((a ++ b) ++ c = a ++ (b ++ c))%string.
Proof. induction a as [|x a IH]; simpl; [reflexivity | now rewrite IH]. Qed.

Lemma string_app_nil_r (a : string) : (a ++ "" = a)%string.
Proof. induction a as [|x a IH]; simpl; [reflexivity | now rewrite IH]. Qed.

(** The decimal digits of [appendDecimal] are the decimal numeral. *)
Lemma appendDecimal_decimal (b : byte) :
  netip.appendDecimal (Byte.to_N b) = decimal (Byte.to_N b).
Proof. destruct b; vm_compute; reflexivity. Qed.

Lemma appendHex_table :
  forallb (fun hi =>
             forallb (fun lo =>
                        String.eqb (netip.appendHex (hi * 256 + lo))
                                   (hexadecimal (hi * 256 + lo)))
                     (map N.of_nat (seq 0 256)))
          (map N.of_nat (seq 0 256)) = true.
Proof. vm_compute. reflexivity. Qed.

Lemma in_range256 (x : N) : (x < 256)%N -> In x (map N.of_nat (seq 0 256)).
Proof.
  intros H. rewrite <- (N2Nat.id x). apply in_map. apply in_seq. lia.
Qed.

(** The hexadecimal digits of [appendHex] are the hexadecimal numeral. *)
Lemma appendHex_hexadecimal (x : N) :
  (x < 65536)%N -> netip.appendHex x = hexadecimal x.
Proof.
  intros H.
  assert (Hhi : (x / 256 < 256)%N)
    by (apply N.Div0.div_lt_upper_bound; lia).
  assert (Hlo : (x mod 256 < 256)%N) by (apply N.mod_lt; lia).
  assert (E : x = (x / 256 * 256 + x mod 256)%N)
    by (rewrite (N.mul_comm _ 256); apply N.div_mod; lia).
  rewrite E. apply String.eqb_eq.
  pose proof appendHex_table as T.
  rewrite forallb_forall in T.
  specialize (T _ (in_range256 _ Hhi)).
  rewrite forallb_forall in T.
  apply T. now apply in_range256.
Qed.

Lemma string4_dottedDecimal (a : net.IP) :
  length a = 4%nat -> netip.string4 a = dottedDecimal a.
Proof.
  intros L.
  destruct a as [|b0 [|b1 [|b2 [|b3 [|? ?]]]]]; try discriminate L.
  unfold netip.string4, netip.v4, net.at_, dottedDecimal. simpl nth.
  now rewrite !appendDecimal_decimal.
Qed.

Lemma lor_byte (hi lo : byte) :
  N.lor (N.shiftl (Byte.to_N hi) 8) (Byte.to_N lo)
  = (Byte.to_N hi * 256 + Byte.to_N lo)%N.
Proof.
  apply N2Z.inj.
  rewrite N2Z.inj_lor, N2Z.inj_shiftl, N2Z.inj_add, N2Z.inj_mul.
  rewrite Z.shiftl_mul_pow2 by lia.
  apply (lor_shifted _ (byteZ lo) 8); [lia | apply byteZ_range].
Qed.

Lemma group_range (hi lo : byte) :
  (Byte.to_N hi * 256 + Byte.to_N lo < 65536)%N.
Proof.
  pose proof (Byte.to_N_bounded hi). pose proof (Byte.to_N_bounded lo). lia.
Qed.

Lemma groups_range (l : list byte) : Forall (fun x => (x < 65536)%N) (groups l).
Proof.
  induction l as [l IH] using (induction_ltof1 _ (@length byte)).
  destruct l as [|hi [|lo l]]; simpl; constructor.
  - apply group_range.
  - apply IH. unfold ltof. simpl. lia.
Qed.

Lemma v6u16_groups (ip : net.IP) (i : nat) :
  length ip = 16%nat -> (i < 8)%nat ->
  netip.v6u16 ip i = nth i (groups ip) 0%N.
Proof.
  intros L Hi.
  do 17 (destruct ip as [|? ip]; try discriminate L).
  do 8 (destruct i as [|i]; [apply lor_byte|]). lia.
Qed.

Lemma runEnd_ext (f g : nat -> bool) (fuel j : nat) :
  (forall k, (k < 8)%nat -> f k = g k) ->
  netip.runEnd f fuel j = netip.runEnd g fuel j.
Proof.
  intros E. revert j. induction fuel as [|fuel IH]; intros j; simpl;
    [reflexivity|].
  destruct (Nat.ltb j 8) eqn:Hj; simpl; [|reflexivity].
  apply Nat.ltb_lt in Hj. rewrite (E j Hj), IH. reflexivity.
Qed.

Lemma findZeros_ext (f g : nat -> bool) (fuel i zs ze : nat) :
  (forall k, (k < 8)%nat -> f k = g k) ->
  netip.findZeros f fuel i zs ze = netip.findZeros g fuel i zs ze.
Proof.
  intros E. revert i zs ze.
  induction fuel as [|fuel IH]; intros i zs ze; cbn [netip.findZeros];
    [reflexivity|].
  rewrite (runEnd_ext f g _ _ E), !IH. reflexivity.
Qed.

Lemma emit_ext (f g : nat -> N) (zs ze fuel i : nat) :
  (forall k, (k < 8)%nat -> f k = g k) ->
  netip.emit f zs ze fuel i = netip.emit g zs ze fuel i.
Proof.
  intros E. revert i.
  induction fuel as [|fuel IH]; intros i; cbn [netip.emit]; [reflexivity|].
  destruct (Nat.ltb i 8) eqn:Hi; [|reflexivity].
  apply Nat.ltb_lt in Hi. rewrite (E i Hi), !IH.
  destruct (Nat.leb 8 ze) eqn:Hze; [reflexivity|].
  apply Nat.leb_gt in Hze. now rewrite (E ze Hze).
Qed.

Lemma string6_of_groups (ip : net.IP) :
  length ip = 16%nat ->
  netip.string6 ip
  = let '(zs, ze) :=
      netip.findZeros (fun j => N.eqb (nth j (groups ip) 0%N) 0) 8 0 255 255 in
    netip.emit (fun i => nth i (groups ip) 0%N) zs ze 8 0.
Proof.
  intros L. unfold netip.string6.
  rewrite (findZeros_ext _ (fun j => N.eqb (nth j (groups ip) 0%N) 0))
    by (intros k Hk; now rewrite v6u16_groups).
  destruct (netip.findZeros _ 8 0 255 255) as [zs ze].
  apply emit_ext. intros k Hk. now apply v6u16_groups.
Qed.

Arguments netip.appendHex : simpl never.
Arguments hexadecimal : simpl never.

Ltac hex_norm :=
  rewrite ?appendHex_hexadecimal by (assumption || reflexivity);
  repeat (progress (rewrite ?string_app_assoc, ?string_app_nil_r; cbn));
  reflexivity.

(** The two loops of [string6] compress the leftmost longest run of two or
    more zero groups: one case for each set of zero groups. *)
Lemma emit_colonHexGroups (g0 g1 g2 g3 g4 g5 g6 g7 : N) :
  (g0 < 65536)%N -> (g1 < 65536)%N -> (g2 < 65536)%N -> (g3 < 65536)%N ->
  (g4 < 65536)%N -> (g5 < 65536)%N -> (g6 < 65536)%N -> (g7 < 65536)%N ->
  (let '(zs, ze) :=
     netip.findZeros
       (fun j => N.eqb (nth j [g0; g1; g2; g3; g4; g5; g6; g7] 0%N) 0)
       8 0 255 255 in
   netip.emit (fun i => nth i [g0; g1; g2; g3; g4; g5; g6; g7] 0%N) zs ze 8 0)
  = colonHexGroups [g0; g1; g2; g3; g4; g5; g6; g7].
Proof.
  intros H0 H1 H2 H3 H4 H5 H6 H7.
  destruct g0 as [|p0], g1 as [|p1], g2 as [|p2], g3 as [|p3].
  all: destruct g4 as [|p4], g5 as [|p5], g6 as [|p6], g7 as [|p7].
  all: unfold colonHexGroups; cbn; hex_norm.
Qed.

Lemma string6_colonHex (ip : net.IP) :
  length ip = 16%nat -> netip.string6 ip = colonHex ip.
Proof.
  intros L. rewrite (string6_of_groups ip L). unfold colonHex.
  do 17 (destruct ip as [|? ip]; try discriminate L).
  cbn [groups]. apply emit_colonHexGroups; apply group_range.
Qed.

Lemma IP_String_V4 (ip a : net.IP) :
  net.To4 ip = Some a -> IP_String ip = dottedDecimal a.
Proof.
  intros E. unfold IP_String. rewrite E.
  pose proof (To4_inv ip a E) as [La Hip]. rewrite La.
  rewrite (string4_dottedDecimal a La).
  destruct Hip as [->| ->].
  - now rewrite La.
  - rewrite length_app, La. reflexivity.
Qed.

Lemma IP_String_V6 (ip : net.IP) :
  net.To4 ip = None -> length ip = 16%nat -> IP_String ip = colonHex ip.
Proof.
  intros E L. unfold IP_String, net.IPv4len, net.IPv6len. rewrite E, L.
  cbn [Nat.eqb negb andb]. unfold netip.string16.
  assert (I : netip.Is4In6 ip = false).
  { unfold net.To4, net.IPv4len, net.IPv6len in E. rewrite L in E.
    cbn [Nat.eqb andb] in E. unfold netip.Is4In6.
    destruct (net.isZeros (firstn 10 ip) && Byte.eqb (net.at_ ip 10) xff
              && Byte.eqb (net.at_ ip 11) xff); [discriminate E | reflexivity]. }
  rewrite I. now apply string6_colonHex.
Qed.

(** C9.  The text of a constructed range is the canonical text of its start,
    one dash, and the canonical text of its end: dotted-decimal of the 4-byte
    form for an IPv4 range, shortest colon-hex of the 16 bytes for an IPv6
    range. *)
Theorem String_canonical (s e : net.IP) (r : Range) :
  New s e = Some r ->
  Range_String r
  = (canonicalText (Range_Family r) (Range_Start r) ++ "-"
     ++ canonicalText (Range_Family r) (Range_End r))%string.
Proof.
  intros HN. destruct r as [r|r].
  - apply New_R4 in HN. destruct HN as (-> & a & b & Es & Ee & _).
    cbn [Range_String Range_Family Range_Start Range_End v4Range_Family
         v4Start v4End canonicalText]. unfold v4Range_String.
    cbn [v4Start v4End].
    rewrite (fixedWidth_V4 s a Es), (fixedWidth_V4 e b Ee).
    now rewrite (IP_String_V4 s a Es), (IP_String_V4 e b Ee).
  - apply New_R6 in HN. destruct HN as (-> & [Es Ls] & [Ee Le] & _).
    cbn [Range_String Range_Family Range_Start Range_End v6Range_Family
         v6Start v6End canonicalText]. unfold v6Range_String.
    cbn [v6Start v6End].
    rewrite (fixedWidth_V6 s Es), (fixedWidth_V6 e Ee).
    now rewrite (IP_String_V6 s Es Ls), (IP_String_V6 e Ee Le).
Qed.

Lemma String_canonical_witness :
  New (ip4 192 168 1 1) (mapped4 192 168 1 1)
  = Some (R4 (mk_v4Range (ip4 192 168 1 1) (mapped4 192 168 1 1))) /\
  Range_String (R4 (mk_v4Range (ip4 192 168 1 1) (mapped4 192 168 1 1)))
  = "192.168.1.1-192.168.1.1"%string /\
  New (ip6 [8193; 3512; 0; 0; 1; 0; 0; 1]%N)
      (ip6 [8193; 3512; 0; 0; 1; 0; 0; 65535]%N)
  = Some (R6 (mk_v6Range (ip6 [8193; 3512; 0; 0; 1; 0; 0; 1]%N)
                         (ip6 [8193; 3512; 0; 0; 1; 0; 0; 65535]%N))) /\
  Range_String (R6 (mk_v6Range (ip6 [8193; 3512; 0; 0; 1; 0; 0; 1]%N)
                               (ip6 [8193; 3512; 0; 0; 1; 0; 0; 65535]%N)))
  = "2001:db8::1:0:0:1-2001:db8::1:0:0:ffff"%string.
Proof.
  split; [reflexivity|]. split.
  - rewrite (String_canonical (ip4 192 168 1 1) (mapped4 192 168 1 1));
      reflexivity.
  - split; [reflexivity|].
    rewrite (String_canonical (ip6 [8193; 3512; 0; 0; 1; 0; 0; 1]%N)
                              (ip6 [8193; 3512; 0; 0; 1; 0; 0; 65535]%N));
      reflexivity.
Defined.

(** ** Scenarios *)

Example scenario_single_address :
  let ip := ip4 192 168 1 1 in
  let r := R4 (mk_v4Range ip ip) in
  New ip ip = Some r /\ Range_Family r = V4Family /\
  Range_Size r = Some 1 /\
  Range_Contains r ip = true /\
  Range_Contains r (ip4 192 168 1 2) = false /\
  Range_String r = "192.168.1.1-192.168.1.1"%string.
Proof. repeat split; reflexivity. Qed.

Example scenario_v4_size :
  option_map Range_Size (New (ip4 10 0 0 1) (ip4 10 0 0 255))
  = Some (Some 255).
Proof. reflexivity. Qed.

Example scenario_start_after_end :
  New (ip4 10 0 0 5) (ip4 10 0 0 1) = None.
Proof. reflexivity. Qed.

Example scenario_v6 :
  let s := ip6 [0; 0; 0; 0; 0; 0; 0; 1]%N in
  let e := ip6 [0; 0; 0; 0; 0; 0; 0; 65535]%N in
  let r := R6 (mk_v6Range s e) in
  New s e = Some r /\ Range_Family r = V6Family /\
  Range_Size r = Some 65535 /\
  Range_String r = "::1-::ffff"%string.
Proof. repeat split; reflexivity. Qed.

Example scenario_family_mismatch :
  New (ip4 192 168 1 1) (ip6 [0; 0; 0; 0; 0; 0; 0; 1]%N) = None.
Proof. reflexivity. Qed.

(** Boundaries stored in two widths: the 4-byte start is above the mapped
    end as raw bytes, so the range does not contain its own start. *)
Example mixed_width_boundaries :
  let s := ip4 10 0 0 1 in
  let e := mapped4 10 0 0 5 in
  let r := R4 (mk_v4Range s e) in
  New s e = Some r /\ Range_Size r = Some 5 /\
  Range_Contains r s = false /\ Range_Contains r e = false.
Proof. repeat split; reflexivity. Qed.

(** * Further properties of the code *)

(** ** [bytes.Compare] is a total order on all slices *)

Lemma Compare_le_trans (a b c : list byte) :
  bytes.Compare a b <= 0 -> bytes.Compare b c <= 0 -> bytes.Compare a c <= 0.
Proof.
  revert b c. induction a as [|x a IH]; intros [|y b] [|z c]; simpl;
    try lia.
  destruct (N.compare_spec (Byte.to_N x) (Byte.to_N y)) as [Exy|Lxy|Gxy];
    destruct (N.compare_spec (Byte.to_N y) (Byte.to_N z)) as [Eyz|Lyz|Gyz];
    destruct (N.compare_spec (Byte.to_N x) (Byte.to_N z)) as [Exz|Lxz|Gxz];
    try lia.
  apply IH.
Qed.

Lemma Compare_nil_l (a : list byte) : bytes.Compare [] a <= 0.
Proof. destruct a; simpl; lia. Qed.

Lemma Compare_nil_r (a : list byte) : 0 <= bytes.Compare a [].
Proof. destruct a; simpl; lia. Qed.

(** ** Big-endian values *)

Lemma be_uint_inj (a b : list byte) :
  length a = length b -> be_uint a = be_uint b -> a = b.
Proof.
  intros L E. destruct (lex_total a b L) as [[H|H]|H]; auto;
    apply lex_lt_be_uint in H; lia.
Qed.

Lemma be_uint_app (p a : list byte) :
  be_uint (p ++ a) = be_uint p * 256 ^ Z.of_nat (length a) + be_uint a.
Proof.
  induction p as [|x p IH]; simpl be_uint; [lia|].
  rewrite IH, length_app, Nat2Z.inj_add, Z.pow_add_r by lia. lia.
Qed.

Lemma byteZ_B (k : Z) : 0 <= k < 256 -> byteZ (B (Z.to_N k)) = k.
Proof.
  intros H. unfold byteZ, B.
  destruct (Byte.of_N (Z.to_N k)) as [b|] eqn:E.
  - apply Byte.to_of_N in E. rewrite E. lia.
  - apply Byte.of_N_None_iff in E. lia.
Qed.

Lemma be_bytes_length (w : nat) (n : Z) : length (be_bytes w n) = w.
Proof. induction w as [|w IH]; simpl; congruence. Qed.

Lemma be_uint_be_bytes_mod (w : nat) (n : Z) :
  be_uint (be_bytes w n) = n mod 256 ^ Z.of_nat w.
Proof.
  induction w as [|w IH].
  - simpl. now rewrite Z.mod_1_r.
  - cbn [be_bytes be_uint]. rewrite be_bytes_length, IH.
    assert (P : 0 < 256 ^ Z.of_nat w) by (apply Z.pow_pos_nonneg; lia).
    rewrite byteZ_B by (apply Z.mod_pos_bound; lia).
    rewrite Nat2Z.inj_succ, Z.pow_succ_r by lia.
    rewrite (Z.mul_comm 256), Z.rem_mul_r by lia. lia.
Qed.

(** Decoding an encoded value gives the value back. *)
Lemma be_uint_be_bytes (w : nat) (n : Z) :
  0 <= n < 256 ^ Z.of_nat w -> be_uint (be_bytes w n) = n.
Proof.
  intros H. rewrite be_uint_be_bytes_mod. now apply Z.mod_small.
Qed.

(** Encoding a decoded sequence gives the sequence back. *)
Lemma be_bytes_be_uint (l : list byte) : be_bytes (length l) (be_uint l) = l.
Proof.
  apply be_uint_inj; [apply be_bytes_length|].
  apply be_uint_be_bytes, be_uint_range.
Qed.

Lemma Compare_sgn (a b : list byte) :
  length a = length b -> bytes.Compare a b = Z.sgn (be_uint a - be_uint b).
Proof.
  intros L. destruct (Compare_cases a b) as [H|[H|H]]; rewrite H.
  - apply Compare_lt in H; [|assumption]. apply lex_lt_be_uint in H.
    symmetry. apply Z.sgn_neg. lia.
  - apply Compare_eq in H. subst b. now rewrite Z.sub_diag.
  - apply Compare_gt in H; [|assumption]. apply lex_lt_be_uint in H.
    symmetry. apply Z.sgn_pos. lia.
Qed.

(** ** [v4ToInt] *)

Lemma To4_None_iff (ip : net.IP) :
  net.To4 ip = None <->
  ~ exists a, length a = 4%nat /\ (ip = a \/ ip = net.v4InV6Prefix ++ a).
Proof.
  split.
  - intros E (a & La & [->| ->]).
    + rewrite (To4_ip4 a La) in E. discriminate.
    + rewrite (To4_mapped a La) in E. discriminate.
  - intros H. destruct (net.To4 ip) as [a|] eqn:E; [|reflexivity].
    exfalso. apply H. exists a. now apply To4_inv.
Qed.

Lemma v4ToInt_None_iff (ip : net.IP) :
  v4ToInt ip = None <-> net.To4 ip = None.
Proof.
  destruct (net.To4 ip) as [a|] eqn:E.
  - rewrite (v4ToInt_be_uint ip a E). split; discriminate.
  - unfold v4ToInt. rewrite E. tauto.
Qed.

Lemma v4ToInt_Some (ip : net.IP) (n : Z) :
  v4ToInt ip = Some n ->
  exists a, net.To4 ip = Some a /\ length a = 4%nat /\ n = be_uint a.
Proof.
  intros H. destruct (net.To4 ip) as [a|] eqn:E.
  - rewrite (v4ToInt_be_uint ip a E) in H. injection H as <-.
    exists a. repeat split. now apply To4_length in E.
  - apply v4ToInt_None_iff in E. congruence.
Qed.

(** X1.  [v4ToInt] fails (the run-time panic of indexing a nil slice)
    exactly on a slice that is neither 4 bytes long nor the mapped prefix
    followed by 4 bytes; every value it returns lies in [0, 2^32). *)
Theorem v4ToInt_defined (ip : net.IP) :
  (v4ToInt ip = None <->
   ~ exists a, length a = 4%nat /\ (ip = a \/ ip = net.v4InV6Prefix ++ a)) /\
  (forall n, v4ToInt ip = Some n -> 0 <= n < 2 ^ 32).
Proof.
  split.
  - rewrite v4ToInt_None_iff. apply To4_None_iff.
  - intros n H. apply v4ToInt_Some in H. destruct H as (a & _ & La & ->).
    now apply be_uint_4.
Qed.

Lemma v4ToInt_defined_witness :
  v4ToInt (ip4 10 0 0 1) = Some 167772161 /\ 0 <= 167772161 < 2 ^ 32.
Proof.
  split; [reflexivity|].
  apply (proj2 (v4ToInt_defined (ip4 10 0 0 1))). reflexivity.
Defined.

(** X2.  Round trip from integers: the 4-byte big-endian form of an integer
    in [0, 2^32), as it is or behind the mapped prefix, is taken back to that
    integer by [v4ToInt]. *)
Theorem v4ToInt_be_bytes (n : Z) :
  0 <= n < 2 ^ 32 ->
  v4ToInt (be_bytes 4 n) = Some n /\
  v4ToInt (net.v4InV6Prefix ++ be_bytes 4 n) = Some n.
Proof.
  intros H.
  assert (E : be_uint (be_bytes 4 n) = n) by now apply be_uint_be_bytes.
  split.
  - rewrite (v4ToInt_be_uint _ (be_bytes 4 n)); [congruence|].
    apply To4_ip4, be_bytes_length.
  - rewrite (v4ToInt_be_uint _ (be_bytes 4 n)); [congruence|].
    apply To4_mapped, be_bytes_length.
Qed.

Lemma v4ToInt_be_bytes_witness :
  v4ToInt (be_bytes 4 3232235777) = Some 3232235777 /\
  v4ToInt (net.v4InV6Prefix ++ be_bytes 4 3232235777) = Some 3232235777.
Proof. apply v4ToInt_be_bytes. split; [lia | reflexivity]. Defined.

(** X3.  Round trip from addresses: a slice that [v4ToInt] takes to [n] is
    the 4-byte big-endian form of [n], as it is or behind the mapped prefix;
    so two slices with one value are forms of one address. *)
Theorem v4ToInt_inv (ip : net.IP) (n : Z) :
  v4ToInt ip = Some n ->
  net.To4 ip = Some (be_bytes 4 n) /\
  (ip = be_bytes 4 n \/ ip = net.v4InV6Prefix ++ be_bytes 4 n) /\
  (forall ip', v4ToInt ip' = Some n -> net.To4 ip' = net.To4 ip).
Proof.
  assert (K : forall ip, v4ToInt ip = Some n ->
                         net.To4 ip = Some (be_bytes 4 n)).
  { intros jp H. apply v4ToInt_Some in H. destruct H as (a & E & La & ->).
    rewrite E, <- La. now rewrite be_bytes_be_uint. }
  intros H. pose proof (K ip H) as E. split; [assumption|]. split.
  - now apply To4_inv in E.
  - intros ip' H'. rewrite E. now apply K.
Qed.

Lemma v4ToInt_inv_witness :
  v4ToInt (mapped4 10 0 0 1) = Some 167772161 /\
  net.To4 (mapped4 10 0 0 1) = Some (be_bytes 4 167772161).
Proof.
  split; [reflexivity|].
  exact (proj1 (v4ToInt_inv (mapped4 10 0 0 1) 167772161 eq_refl)).
Defined.

(** X4.  [v4ToInt] turns the byte-wise order of the 4-byte forms into the
    order of the integers: comparing the forms gives the sign of the
    difference of the values. *)
Theorem v4ToInt_order (a b : net.IP) (x y : Z) :
  v4ToInt a = Some x ->
  v4ToInt b = Some y ->
  bytes.Compare (fixedWidth a) (fixedWidth b) = Z.sgn (x - y).
Proof.
  intros Ha Hb. apply v4ToInt_Some in Ha, Hb.
  destruct Ha as (a4 & Ea & La & ->), Hb as (b4 & Eb & Lb & ->).
  rewrite (fixedWidth_V4 a a4 Ea), (fixedWidth_V4 b b4 Eb).
  apply Compare_sgn. congruence.
Qed.

Lemma v4ToInt_order_witness :
  v4ToInt (ip4 10 0 0 1) = Some 167772161 /\
  v4ToInt (mapped4 9 255 255 255) = Some 167772159 /\
  bytes.Compare (fixedWidth (ip4 10 0 0 1)) (fixedWidth (mapped4 9 255 255 255))
  = Z.sgn (167772161 - 167772159).
Proof.
  split; [reflexivity|]. split; [reflexivity|].
  apply v4ToInt_order; reflexivity.
Defined.

(** ** [Size] on any range value *)

(** X5.  [v4Range.Size] fails exactly when one of the stored boundaries is
    not representable as IPv4.  Otherwise it is [v4ToInt] of the end minus
    [v4ToInt] of the start plus one, without wrap-around, whatever forms the
    boundaries are stored in; it lies in (-2^32, 2^32] and is positive
    exactly when start <= end in the 4-byte form. *)
Theorem v4Range_Size_any (r : v4Range) :
  (v4Range_Size r = None <->
   net.To4 (v4Start r) = None \/ net.To4 (v4End r) = None) /\
  (forall n,
      v4Range_Size r = Some n ->
      exists s e,
        v4ToInt (v4Start r) = Some s /\ v4ToInt (v4End r) = Some e /\
        n = e - s + 1 /\ - 2 ^ 32 < n <= 2 ^ 32 /\
        (1 <= n <->
         bytes.Compare (fixedWidth (v4Start r)) (fixedWidth (v4End r)) <= 0)).
Proof.
  destruct (net.To4 (v4Start r)) as [a|] eqn:Ea;
    [destruct (net.To4 (v4End r)) as [b|] eqn:Eb|].
  - rewrite (v4Range_Size_be_uint r a b Ea Eb). split.
    + split; [discriminate | intros [H|H]; discriminate].
    + intros n [= <-]. exists (be_uint a), (be_uint b).
      pose proof (To4_length _ _ Ea) as La.
      pose proof (To4_length _ _ Eb) as Lb.
      pose proof (be_uint_4 a La). pose proof (be_uint_4 b Lb).
      rewrite (fixedWidth_V4 _ a Ea), (fixedWidth_V4 _ b Eb).
      rewrite (Compare_sgn a b) by congruence.
      repeat split; auto using v4ToInt_be_uint; lia.
  - assert (E : v4Range_Size r = None).
    { unfold v4Range_Size.
      rewrite (proj2 (v4ToInt_None_iff (v4End r)) Eb). reflexivity. }
    rewrite E. split; [tauto | discriminate].
  - assert (E : v4Range_Size r = None).
    { unfold v4Range_Size.
      rewrite (proj2 (v4ToInt_None_iff (v4Start r)) Ea).
      now destruct (v4ToInt (v4End r)). }
    rewrite E. split; [tauto | discriminate].
Qed.

Lemma v4Range_Size_any_witness :
  v4Range_Size (mk_v4Range (mapped4 10 0 0 5) (ip4 10 0 0 1)) = Some (-3) /\
  exists s e,
    v4ToInt (mapped4 10 0 0 5) = Some s /\ v4ToInt (ip4 10 0 0 1) = Some e /\
    -3 = e - s + 1 /\ - 2 ^ 32 < -3 <= 2 ^ 32 /\
    (1 <= -3 <->
     bytes.Compare (fixedWidth (mapped4 10 0 0 5)) (fixedWidth (ip4 10 0 0 1))
     <= 0).
Proof.
  split; [reflexivity|].
  apply (proj2 (v4Range_Size_any
                  (mk_v4Range (mapped4 10 0 0 5) (ip4 10 0 0 1))) (-3)).
  reflexivity.
Defined.

(** X6.  [v6Range.Size] on boundaries of one length is the difference of
    their big-endian values plus one; it is positive exactly when
    start <= end byte-wise and never exceeds 256 to the power of the
    length. *)
Theorem v6Range_Size_any (r : v6Range) :
  length (v6Start r) = length (v6End r) ->
  v6Range_Size r = be_uint (v6End r) - be_uint (v6Start r) + 1 /\
  (1 <= v6Range_Size r <-> bytes.Compare (v6Start r) (v6End r) <= 0) /\
  - 256 ^ Z.of_nat (length (v6Start r)) < v6Range_Size r
    <= 256 ^ Z.of_nat (length (v6Start r)).
Proof.
  intros L. rewrite v6Range_Size_be_uint, (Compare_sgn _ _ L).
  pose proof (be_uint_range (v6Start r)) as Hs.
  pose proof (be_uint_range (v6End r)) as He. rewrite <- L in He.
  repeat split; lia.
Qed.

Lemma v6Range_Size_any_witness :
  v6Range_Size (mk_v6Range (ip6 [0; 0; 0; 0; 0; 0; 0; 9]%N)
                           (ip6 [0; 0; 0; 0; 0; 0; 0; 1]%N))
  = be_uint (ip6 [0; 0; 0; 0; 0; 0; 0; 1]%N)
    - be_uint (ip6 [0; 0; 0; 0; 0; 0; 0; 9]%N) + 1.
Proof.
  apply (v6Range_Size_any (mk_v6Range (ip6 [0; 0; 0; 0; 0; 0; 0; 9]%N)
                                      (ip6 [0; 0; 0; 0; 0; 0; 0; 1]%N))).
  reflexivity.
Defined.

(** ** [Contains] on any range value *)

Lemma Contains_iff (r : Range) (ip : net.IP) :
  Range_Contains r ip = true <->
  bytes.Compare (Range_Start r) ip <= 0 /\ bytes.Compare ip (Range_End r) <= 0.
Proof.
  rewrite Contains_unfold, andb_true_iff, Z.geb_le, Z.leb_le.
  rewrite (Compare_antisym ip (Range_Start r)). lia.
Qed.

(** X7.  The nil (or empty) candidate is contained exactly when the stored
    start is itself empty; no range with a non-empty start contains it. *)
Theorem Contains_nil (r : Range) :
  Range_Contains r [] = true <-> Range_Start r = [].
Proof.
  rewrite Contains_iff. split.
  - intros [H _]. destruct (Range_Start r); [reflexivity|]. simpl in H. lia.
  - intros ->. split; [simpl; lia | apply Compare_nil_l].
Qed.

(** X8.  A range value whose stored start is above its stored end byte-wise
    contains no candidate at all, of any length. *)
Theorem Contains_inverted (r : Range) (ip : net.IP) :
  bytes.Compare (Range_Start r) (Range_End r) > 0 ->
  Range_Contains r ip = false.
Proof.
  intros H. apply not_true_is_false. intros C. apply Contains_iff in C.
  destruct C as [C1 C2].
  pose proof (Compare_le_trans _ _ _ C1 C2). lia.
Qed.

Lemma Contains_inverted_witness :
  Range_Contains (R4 (mk_v4Range (ip4 10 0 0 5) (ip4 10 0 0 1)))
                 (ip4 10 0 0 3) = false.
Proof. apply Contains_inverted. reflexivity. Defined.

(** X9.  What a range contains is an interval of the order of
    [bytes.Compare]: a slice between two contained slices is contained,
    whatever the lengths. *)
Theorem Contains_convex (r : Range) (a b c : net.IP) :
  Range_Contains r a = true ->
  Range_Contains r c = true ->
  bytes.Compare a b <= 0 ->
  bytes.Compare b c <= 0 ->
  Range_Contains r b = true.
Proof.
  rewrite !Contains_iff. intros [Ha _] [_ Hc] Hab Hbc. split.
  - exact (Compare_le_trans _ _ _ Ha Hab).
  - exact (Compare_le_trans _ _ _ Hbc Hc).
Qed.

Lemma Contains_convex_witness :
  Range_Contains (R4 (mk_v4Range (ip4 10 0 0 1) (ip4 10 0 0 255)))
                 (ip4 10 0 0 7) = true.
Proof.
  apply (Contains_convex _ (ip4 10 0 0 1) (ip4 10 0 0 7) (ip4 10 0 0 9));
    try reflexivity; vm_compute; discriminate.
Defined.

(** X10.  Widening the boundaries keeps what is contained: a range whose
    start is not above and whose end is not below those of another contains
    every candidate the other contains, across the two families. *)
Theorem Contains_widen (r1 r2 : Range) (ip : net.IP) :
  bytes.Compare (Range_Start r2) (Range_Start r1) <= 0 ->
  bytes.Compare (Range_End r1) (Range_End r2) <= 0 ->
  Range_Contains r1 ip = true ->
  Range_Contains r2 ip = true.
Proof.
  rewrite !Contains_iff. intros Hs He [H1 H2]. split.
  - exact (Compare_le_trans _ _ _ Hs H1).
  - exact (Compare_le_trans _ _ _ H2 He).
Qed.

Lemma Contains_widen_witness :
  Range_Contains (R4 (mk_v4Range (ip4 10 0 0 0) (ip4 10 0 1 0)))
                 (ip4 10 0 0 7) = true.
Proof.
  apply (Contains_widen (R4 (mk_v4Range (ip4 10 0 0 1) (ip4 10 0 0 255))));
    try reflexivity; vm_compute; discriminate.
Defined.

(** *** Candidates of the other width *)

Lemma Compare_cons_zero (x : byte) (c m : list byte) :
  bytes.Compare (x :: c) (x00 :: m)
  = if Byte.eqb x x00 then bytes.Compare c m else 1.
Proof.
  destruct (Byte.eqb x x00) eqn:E.
  - apply Byte.byte_dec_bl in E. subst x. simpl. reflexivity.
  - apply Byte.eqb_false in E. cbn [bytes.Compare].
    destruct (N.compare_spec (Byte.to_N x) (Byte.to_N x00)) as [H|H|H].
    + now apply to_N_inj in H.
    + change (Byte.to_N x00) with 0%N in H. lia.
    + reflexivity.
Qed.

(** A 4-byte slice against a mapped one: below when it is all zeros (it is
    then a proper prefix), above otherwise. *)
Lemma Compare_4_mapped (c a : list byte) :
  length c = 4%nat ->
  bytes.Compare c (net.v4InV6Prefix ++ a) = if net.isZeros c then -1 else 1.
Proof.
  intros L.
  destruct c as [|c0 [|c1 [|c2 [|c3 [|? ?]]]]]; try discriminate L.
  unfold net.v4InV6Prefix, net.isZeros. cbn [app forallb].
  rewrite !Compare_cons_zero.
  destruct (Byte.eqb c0 x00), (Byte.eqb c1 x00), (Byte.eqb c2 x00),
    (Byte.eqb c3 x00); reflexivity.
Qed.

(** X11.  A range whose two boundaries are stored in the 16-byte mapped form
    contains no 4-byte candidate, whatever its address. *)
Theorem Contains_mapped_rejects_4 (r : Range) (a b ip : net.IP) :
  Range_Start r = net.v4InV6Prefix ++ a ->
  Range_End r = net.v4InV6Prefix ++ b ->
  length ip = 4%nat ->
  Range_Contains r ip = false.
Proof.
  intros Es Ee L. rewrite Contains_unfold, Es, Ee.
  rewrite !(Compare_4_mapped ip _ L).
  now destruct (net.isZeros ip).
Qed.

Lemma Contains_mapped_rejects_4_witness :
  Range_Contains (R4 (mk_v4Range (mapped4 10 0 0 1) (mapped4 10 0 0 255)))
                 (ip4 10 0 0 1) = false.
Proof.
  apply (Contains_mapped_rejects_4 _ (ip4 10 0 0 1) (ip4 10 0 0 255));
    reflexivity.
Defined.

(** X12.  A range whose two boundaries are stored in 4 bytes contains a
    candidate in the 16-byte mapped form exactly when its start is 0.0.0.0
    and its end is not, whatever the address of the candidate. *)
Theorem Contains_4_mapped_candidate (r : Range) (c : net.IP) :
  length (Range_Start r) = 4%nat ->
  length (Range_End r) = 4%nat ->
  Range_Contains r (net.v4InV6Prefix ++ c)
  = net.isZeros (Range_Start r) && negb (net.isZeros (Range_End r)).
Proof.
  intros Ls Le. rewrite Contains_unfold.
  rewrite (Compare_antisym (Range_Start r)), (Compare_antisym (Range_End r)).
  rewrite (Compare_4_mapped _ c Ls), (Compare_4_mapped _ c Le).
  now destruct (net.isZeros (Range_Start r)), (net.isZeros (Range_End r)).
Qed.

Lemma Contains_4_mapped_candidate_witness :
  Range_Contains (R4 (mk_v4Range (ip4 0 0 0 0) (ip4 0 0 0 5)))
                 (mapped4 255 255 255 255) = true /\
  Range_Contains (R4 (mk_v4Range (ip4 10 0 0 1) (ip4 10 0 0 255)))
                 (mapped4 10 0 0 5) = false.
Proof.
  split.
  - apply (Contains_4_mapped_candidate
             (R4 (mk_v4Range (ip4 0 0 0 0) (ip4 0 0 0 5)))
             (ip4 255 255 255 255)); reflexivity.
  - apply (Contains_4_mapped_candidate
             (R4 (mk_v4Range (ip4 10 0 0 1) (ip4 10 0 0 255)))
             (ip4 10 0 0 5)); reflexivity.
Defined.

(** *** Candidates of the width of the boundaries *)

Lemma Compare_To4 (a b a4 b4 : net.IP) :
  net.To4 a = Some a4 -> net.To4 b = Some b4 -> length a = length b ->
  bytes.Compare a b = bytes.Compare a4 b4.
Proof.
  intros Ea Eb L. apply To4_inv in Ea, Eb.
  destruct Ea as [La [->| ->]], Eb as [Lb [->| ->]];
    try reflexivity; try apply Compare_app;
    rewrite length_app in L; simpl in L; lia.
Qed.

(** X13.  When the candidate is stored as the two boundaries of an IPv4
    range value are (all in 4 bytes or all in the mapped form), [Contains]
    is the comparison of the integers of [v4ToInt]. *)
Theorem v4Range_Contains_numeric (r : v4Range) (ip : net.IP) (s e x : Z) :
  v4ToInt (v4Start r) = Some s ->
  v4ToInt (v4End r) = Some e ->
  v4ToInt ip = Some x ->
  length ip = length (v4Start r) ->
  length ip = length (v4End r) ->
  (v4Range_Contains r ip = true <-> s <= x <= e).
Proof.
  intros Hs He Hx Ls Le. apply v4ToInt_Some in Hs, He, Hx.
  destruct Hs as (s4 & Es & Ls4 & ->), He as (e4 & Ee & Le4 & ->),
    Hx as (x4 & Ex & Lx4 & ->).
  unfold v4Range_Contains. rewrite andb_true_iff, Z.geb_le, Z.leb_le.
  rewrite (Compare_To4 ip _ x4 s4 Ex Es Ls), (Compare_To4 ip _ x4 e4 Ex Ee Le).
  rewrite !Compare_sgn by congruence. lia.
Qed.

Lemma v4Range_Contains_numeric_witness :
  v4Range_Contains (mk_v4Range (mapped4 10 0 0 1) (mapped4 10 0 0 255))
                   (mapped4 10 0 0 5) = true <->
  167772161 <= 167772165 <= 167772415.
Proof.
  apply v4Range_Contains_numeric; reflexivity.
Defined.

(** X14.  For a candidate of the length of the two boundaries of an IPv6
    range value, [Contains] is the comparison of the integers that [Size]
    reads with [SetBytes]. *)
Theorem v6Range_Contains_numeric (r : v6Range) (ip : net.IP) :
  length ip = length (v6Start r) ->
  length ip = length (v6End r) ->
  (v6Range_Contains r ip = true <->
   big.SetBytes (v6Start r) <= big.SetBytes ip <= big.SetBytes (v6End r)).
Proof.
  intros Ls Le. unfold v6Range_Contains.
  rewrite andb_true_iff, Z.geb_le, Z.leb_le, !SetBytes_be_uint.
  rewrite !Compare_sgn by congruence. lia.
Qed.

Lemma v6Range_Contains_numeric_witness :
  v6Range_Contains (mk_v6Range (ip6 [0; 0; 0; 0; 0; 0; 0; 1]%N)
                               (ip6 [0; 0; 0; 0; 0; 0; 0; 65535]%N))
                   (ip6 [0; 0; 0; 0; 0; 0; 0; 256]%N) = true <->
  big.SetBytes (ip6 [0; 0; 0; 0; 0; 0; 0; 1]%N)
  <= big.SetBytes (ip6 [0; 0; 0; 0; 0; 0; 0; 256]%N)
  <= big.SetBytes (ip6 [0; 0; 0; 0; 0; 0; 0; 65535]%N).
Proof.
  apply v6Range_Contains_numeric; reflexivity.
Defined.

(** ** [Size] counts what [Contains] accepts *)

Lemma In_between (lo hi k : Z) : In k (between lo hi) <-> lo <= k <= hi.
Proof.
  unfold between. rewrite in_map_iff. split.
  - intros (i & <- & Hi). apply in_seq in Hi. lia.
  - intros H. exists (Z.to_nat (k - lo)). split; [lia|].
    apply in_seq. lia.
Qed.

Lemma between_length (lo hi : Z) :
  lo <= hi -> Z.of_nat (length (between lo hi)) = hi - lo + 1.
Proof.
  intros H. unfold between. rewrite length_map, length_seq. lia.
Qed.

Lemma between_NoDup (lo hi : Z) : NoDup (between lo hi).
Proof.
  unfold between. apply NoDup_map_NoDup_ForallPairs; [|apply seq_NoDup].
  intros i j _ _ E. lia.
Qed.

Lemma candidates_NoDup (w : nat) (lo hi : Z) :
  0 <= lo -> hi < 256 ^ Z.of_nat w ->
  NoDup (map (be_bytes w) (between lo hi)).
Proof.
  intros Hlo Hhi.
  apply NoDup_map_NoDup_ForallPairs; [|apply between_NoDup].
  intros i j Hi Hj E. apply In_between in Hi, Hj.
  rewrite <- (be_uint_be_bytes w i), <- (be_uint_be_bytes w j) by lia.
  now rewrite E.
Qed.

Lemma In_candidates (s e ip : list byte) :
  length s = length e ->
  In ip (map (be_bytes (length s)) (between (be_uint s) (be_uint e))) <->
  length ip = length s /\
  bytes.Compare s ip <= 0 /\ bytes.Compare ip e <= 0.
Proof.
  intros L.
  pose proof (be_uint_range s) as Hs. pose proof (be_uint_range e) as He.
  rewrite <- L in He. rewrite in_map_iff. split.
  - intros (k & <- & Hk). apply In_between in Hk.
    rewrite be_bytes_length. split; [reflexivity|].
    rewrite !Compare_sgn by (rewrite be_bytes_length; congruence).
    rewrite be_uint_be_bytes by lia. lia.
  - intros (Lip & H1 & H2).
    rewrite !Compare_sgn in * by congruence.
    exists (be_uint ip). split.
    + rewrite <- Lip. apply be_bytes_be_uint.
    + apply In_between. lia.
Qed.

Lemma Range_Size_same_width (r : Range) (n : Z) :
  length (Range_Start r) = length (Range_End r) ->
  Range_Size r = Some n ->
  n = be_uint (Range_End r) - be_uint (Range_Start r) + 1.
Proof.
  intros L H. destruct r as [r|r]; cbn in *.
  - destruct (net.To4 (v4Start r)) as [a|] eqn:Ea;
      [|apply (proj2 (v4ToInt_None_iff _)) in Ea;
        unfold v4Range_Size in H; rewrite Ea in H;
        destruct (v4ToInt (v4End r)); discriminate].
    destruct (net.To4 (v4End r)) as [b|] eqn:Eb;
      [|apply (proj2 (v4ToInt_None_iff _)) in Eb;
        unfold v4Range_Size in H; rewrite Eb in H; discriminate].
    rewrite (v4Range_Size_be_uint r a b Ea Eb) in H. injection H as <-.
    apply To4_inv in Ea, Eb.
    destruct Ea as [La [Ea|Ea]], Eb as [Lb [Eb|Eb]]; rewrite Ea, Eb in *;
      rewrite ?be_uint_app, ?La, ?Lb; try lia;
      rewrite ?length_app in L; simpl in L; lia.
  - injection H as <-. apply v6Range_Size_be_uint.
Qed.

(** X15.  For a range value whose boundaries are stored in one width with
    start <= end, [Size] is the number of candidates of that width that
    [Contains] accepts: they are, without repetition, the big-endian forms of
    the integers from the value of the start to the value of the end. *)
Theorem Size_counts_contained (r : Range) (n : Z) :
  length (Range_Start r) = length (Range_End r) ->
  bytes.Compare (Range_Start r) (Range_End r) <= 0 ->
  Range_Size r = Some n ->
  NoDup (candidatesBetween r) /\
  (forall ip,
      In ip (candidatesBetween r) <->
      length ip = length (Range_Start r) /\ Range_Contains r ip = true) /\
  n = Z.of_nat (length (candidatesBetween r)).
Proof.
  intros L Hle HS.
  pose proof (be_uint_range (Range_Start r)) as Hs.
  pose proof (be_uint_range (Range_End r)) as He. rewrite <- L in He.
  rewrite (Compare_sgn _ _ L) in Hle.
  split; [|split].
  - apply candidates_NoDup; lia.
  - intros ip. unfold candidatesBetween.
    rewrite (In_candidates _ _ ip L), Contains_iff. reflexivity.
  - unfold candidatesBetween. rewrite length_map, between_length by lia.
    now apply Range_Size_same_width.
Qed.

Lemma Size_counts_contained_witness :
  Range_Size (R4 (mk_v4Range (mapped4 10 0 0 1) (mapped4 10 0 0 5))) = Some 5 /\
  5 = Z.of_nat (length (candidatesBetween
                          (R4 (mk_v4Range (mapped4 10 0 0 1)
                                          (mapped4 10 0 0 5))))).
Proof.
  split; [reflexivity|].
  apply (Size_counts_contained
           (R4 (mk_v4Range (mapped4 10 0 0 1) (mapped4 10 0 0 5))) 5);
    try reflexivity.
  vm_compute. discriminate.
Defined.

(** ** The text of an IPv4 range determines its addresses *)

Arguments decimal : simpl never.

Lemma readNumbers_decimal (b : byte) (rest : string) :
  readNumbers (decimal (Byte.to_N b) ++ rest) 0 = readNumbers rest (Byte.to_N b).
Proof. destruct b; reflexivity. Qed.

Lemma readNumbers_decimal_end (b : byte) :
  readNumbers (decimal (Byte.to_N b)) 0 = [Byte.to_N b].
Proof.
  rewrite <- (string_app_nil_r (decimal (Byte.to_N b))).
  now rewrite readNumbers_decimal.
Qed.

Lemma map_to_N_inj (a b : list byte) :
  map Byte.to_N a = map Byte.to_N b -> a = b.
Proof.
  revert b. induction a as [|x a IH]; intros [|y b]; simpl;
    try discriminate; [reflexivity|].
  intros [= Hxy Hab]. f_equal; [now apply to_N_inj | now apply IH].
Qed.

(** The numbers read back from the text of an IPv4 range are the bytes of
    its two addresses. *)
Lemma readNumbers_String (r : v4Range) (a b : net.IP) :
  net.To4 (v4Start r) = Some a -> net.To4 (v4End r) = Some b ->
  readNumbers (v4Range_String r) 0 = map Byte.to_N (a ++ b).
Proof.
  intros Ea Eb. unfold v4Range_String.
  rewrite (IP_String_V4 _ a Ea), (IP_String_V4 _ b Eb).
  pose proof (To4_length _ _ Ea) as La. pose proof (To4_length _ _ Eb) as Lb.
  destruct a as [|a0 [|a1 [|a2 [|a3 [|? ?]]]]]; try discriminate La.
  destruct b as [|b0 [|b1 [|b2 [|b3 [|? ?]]]]]; try discriminate Lb.
  unfold dottedDecimal. cbn [map String.concat app].
  rewrite !string_app_assoc.
  repeat (rewrite readNumbers_decimal; cbn [readNumbers String.append];
          cbn [Ascii.eqb Bool.eqb orb andb]).
  now rewrite readNumbers_decimal_end.
Qed.

Lemma app_inj_length {A} (a a' b b' : list A) :
  length a = length a' -> a ++ b = a' ++ b' -> a = a' /\ b = b'.
Proof.
  revert a'. induction a as [|x a IH]; intros [|x' a'] L E;
    try discriminate L; [now split|].
  injection L as L. injection E as -> E.
  destruct (IH a' L E) as [-> ->]. now split.
Qed.

(** X16.  Two IPv4 range values have the same text exactly when their starts
    are forms of one address and their ends are forms of one address: the
    text does not show the stored width, and it determines the addresses. *)
Theorem v4Range_String_inj (r r' : v4Range) (a b a' b' : net.IP) :
  net.To4 (v4Start r) = Some a ->
  net.To4 (v4End r) = Some b ->
  net.To4 (v4Start r') = Some a' ->
  net.To4 (v4End r') = Some b' ->
  (v4Range_String r = v4Range_String r' <-> a = a' /\ b = b').
Proof.
  intros Ea Eb Ea' Eb'. split.
  - intros E.
    assert (N : map Byte.to_N (a ++ b) = map Byte.to_N (a' ++ b')).
    { rewrite <- (readNumbers_String r a b Ea Eb).
      rewrite <- (readNumbers_String r' a' b' Ea' Eb'). now rewrite E. }
    apply map_to_N_inj in N.
    apply app_inj_length in N; [assumption|].
    apply To4_length in Ea, Ea'. congruence.
  - intros [<- <-]. unfold v4Range_String.
    now rewrite (IP_String_V4 _ a Ea), (IP_String_V4 _ b Eb),
      (IP_String_V4 _ a Ea'), (IP_String_V4 _ b Eb').
Qed.

Lemma v4Range_String_inj_witness :
  v4Range_String (mk_v4Range (ip4 10 0 0 1) (mapped4 10 0 0 255))
  = v4Range_String (mk_v4Range (mapped4 10 0 0 1) (ip4 10 0 0 255)) <->
  ip4 10 0 0 1 = ip4 10 0 0 1 /\ ip4 10 0 0 255 = ip4 10 0 0 255.
Proof.
  apply (v4Range_String_inj
           (mk_v4Range (ip4 10 0 0 1) (mapped4 10 0 0 255))
           (mk_v4Range (mapped4 10 0 0 1) (ip4 10 0 0 255))); reflexivity.
Defined.

(** ** Splitting a range *)

(** X17.  A range cut in two, the second part starting at the successor of
    the end of the first, all boundaries stored in one width: the sizes of
    the parts add up to the size of the whole, and when neither part is
    inverted past the whole a candidate of that width is contained in the
    whole exactly when it is contained in one of the parts. *)
Theorem Range_split (r r1 r2 : Range) (n n1 n2 : Z) :
  Range_Start r1 = Range_Start r ->
  Range_End r2 = Range_End r ->
  length (Range_End r1) = length (Range_Start r) ->
  length (Range_Start r2) = length (Range_Start r) ->
  length (Range_End r) = length (Range_Start r) ->
  be_uint (Range_Start r2) = be_uint (Range_End r1) + 1 ->
  Range_Size r = Some n ->
  Range_Size r1 = Some n1 ->
  Range_Size r2 = Some n2 ->
  n = n1 + n2 /\
  (bytes.Compare (Range_Start r) (Range_Start r2) <= 0 ->
   bytes.Compare (Range_End r1) (Range_End r) <= 0 ->
   forall ip, length ip = length (Range_Start r) ->
              Range_Contains r ip
              = Range_Contains r1 ip || Range_Contains r2 ip).
Proof.
  intros Es Ee L1 L2 Le Hsucc HS HS1 HS2.
  apply Range_Size_same_width in HS; [|congruence].
  apply Range_Size_same_width in HS1; [|congruence].
  apply Range_Size_same_width in HS2; [|congruence].
  rewrite Es in HS1. rewrite Ee in HS2.
  split; [lia|].
  intros H1 H2 ip Lip.
  rewrite !Compare_sgn in H1, H2 by congruence.
  apply eq_true_iff_eq.
  rewrite orb_true_iff, !Contains_iff, Es, Ee.
  rewrite !Compare_sgn by congruence. lia.
Qed.

Lemma Range_split_witness :
  Range_Size (R4 (mk_v4Range (ip4 10 0 0 1) (ip4 10 0 0 255))) = Some 255 /\
  255 = 9 + 246 /\
  Range_Contains (R4 (mk_v4Range (ip4 10 0 0 1) (ip4 10 0 0 255)))
                 (ip4 10 0 0 10)
  = Range_Contains (R4 (mk_v4Range (ip4 10 0 0 1) (ip4 10 0 0 9)))
                   (ip4 10 0 0 10)
    || Range_Contains (R4 (mk_v4Range (ip4 10 0 0 10) (ip4 10 0 0 255)))
                      (ip4 10 0 0 10).
Proof.
  split; [reflexivity|].
  pose proof (Range_split
                (R4 (mk_v4Range (ip4 10 0 0 1) (ip4 10 0 0 255)))
                (R4 (mk_v4Range (ip4 10 0 0 1) (ip4 10 0 0 9)))
                (R4 (mk_v4Range (ip4 10 0 0 10) (ip4 10 0 0 255)))
                255 9 246
                eq_refl eq_refl eq_refl eq_refl eq_refl eq_refl
                eq_refl eq_refl eq_refl) as [Hn Hc].
  split; [exact Hn|].
  apply Hc; try reflexivity; vm_compute; discriminate.
Defined.
